(** * findig: resource dispatch and input validation

    A shallow embedding of [findig/resource.py] (Resource, Collection) and
    [findig/tools/validator.py] (Validator, _ContainerWrapper), followed by the
    properties of the dispatch and validation algorithms.

    Conventions.
    - A Python call that may raise is a function into [outcome]: [Return v]
      for a normal return, [Raise e] for an exception.
    - A data model is a mapping from capability names to operations
      ([gmap string operation]); ['read' in model] is [contains model "read"]
      and [model['read']] is [getitem model "read"].
    - [ctx.response] is threaded explicitly as a [response] state.
    - Dictionaries whose iteration order is observable (the validator's
      tables and the request input) are insertion-ordered association lists
      ([odict]). *)

From Stdlib Require Import ZArith Ascii.
From stdpp Require Import base gmap strings list fin_maps.

Set Warnings "-register-all".
#[local] Open Scope string_scope.

(** ** Python values, exceptions and outcomes *)

(** The data of requests and models: [VSeq] is a list, [VMap] a dict with
    strings for keys, and [VOther] any object that is no data, such as a
    class, a function or a method, known by a name. *)
Inductive value :=
| VNone
| VBool (b : bool)
| VInt (z : Z)
| VStr (s : string)
| VSeq (items : list value)
| VMap (items : list (string * value))
| VTuple (items : list value)
| VOther (what : string).

(** The exception classes the two modules raise or catch.  [KeyError] and
    [IndexError] are subclasses of [LookupError]; [InvalidSpecificationError]
    is declared in validator.py as a subclass of [ValueError]; the three
    [...Fields] classes are the subclasses of [ValidationFailed] and carry
    its [fields] attribute. *)
Inductive exn :=
| MethodNotAllowed (valid_methods : list string)
| NotFound
| LookupError
| KeyError (key : string)
| IndexError
| ValueError
| TypeError
| AttributeError
| URLBuildError
| InvalidSpecificationError
| UnexpectedFields (fields : list value)
| MissingFields (fields : list string)
| InvalidFields (fields : list string)
| OtherError (what : string).

(** [isinstance(err, LookupError)] *)
Definition is_LookupError (err : exn) : bool :=
  match err with
  | LookupError | KeyError _ | IndexError => true
  | _ => false
  end.

(** [isinstance(err, InvalidSpecificationError)] *)
Definition is_InvalidSpecificationError (err : exn) : bool :=
  match err with
  | InvalidSpecificationError => true
  | _ => false
  end.

(** [isinstance(err, MissingFields)] *)
Definition is_MissingFields (err : exn) : bool :=
  match err with
  | MissingFields _ => true
  | _ => false
  end.

(** [isinstance(err, MethodNotAllowed)] *)
Definition is_MethodNotAllowed (err : exn) : bool :=
  match err with
  | MethodNotAllowed _ => true
  | _ => false
  end.

Inductive outcome (A : Type) :=
| Return (a : A)
| Raise (e : exn).
Arguments Return {A} a.
Arguments Raise {A} e.

#[global] Instance outcome_ret : MRet outcome := @Return.
#[global] Instance outcome_bind : MBind outcome := λ A B f m,
  match m with
  | Return a => f a
  | Raise e => Raise e
  end.

Definition raises {A} (o : outcome A) : bool :=
  match o with
  | Return _ => false
  | Raise _ => true
  end.

(** The outcome is an exception of the class tested by [cls]. *)
Definition fails_with {A} (cls : exn → bool) (o : outcome A) : bool :=
  match o with
  | Return _ => false
  | Raise e => cls e
  end.

(** ** Data models *)

(** A capability is a Python callable applied to positional arguments. *)
Definition operation : Type := list value → outcome value.

(** [key in model] *)
Definition contains {V} (model : gmap string V) (key : string) : bool :=
  bool_decide (is_Some (model !! key)).

(** [model[key]]: the Mapping protocol raises [KeyError] on a missing key. *)
Definition getitem {V} (model : gmap string V) (key : string) : outcome V :=
  match model !! key with
  | Some f => Return f
  | None => Raise (KeyError key)
  end.

(** What resource.py calls from [findig.data_model], [findig.content] and
    the request context, none of which is among the sources. *)
Class Collaborators := {
  (** [AbstractDataModel.compose]: [compose self other] is [self.compose(other)] *)
  compose : gmap string operation → gmap string operation → gmap string operation;
  (** [DataSetDataModel(dataset)] *)
  DataSetDataModel : value → gmap string operation;
  (** what a bare [ErrorHandler()] does with an exception of a class that has
      no registered function *)
  ErrorHandler_unregistered : exn → outcome value;
  (** [url_adapter.build(endpoint, values)] *)
  url_adapter_build : string → gmap string value → outcome string;
}.

(** Modelled from the spec: [AbstractDataModel.compose] is not among the
    sources.  "Two models may be composed: the result's capability set is
    the union, with the second operand's capability taking precedence on
    conflict."  The union of [gmap] is left-biased, hence [other ∪ self]. *)
Definition compose_second_wins
    (self other : gmap string operation) : gmap string operation :=
  other ∪ self.

(** Modelled from the spec: [findig.content.ErrorHandler] is not among the
    sources.  It is "a callable taking the raised condition and producing a
    response value"; [register(cls, f)] makes it call [f] on the instances
    of [cls].  An entry pairs the [isinstance] test of a class with the
    registered function; the most recent registration is tried first. *)
Definition ErrorHandler : Type := list ((exn → bool) * (exn → outcome value)).

Definition ErrorHandler_register
    (cls : exn → bool) (f : exn → outcome value) (eh : ErrorHandler) : ErrorHandler :=
  (cls, f) :: eh.

Definition ErrorHandler_call `{Collaborators} (eh : ErrorHandler) (err : exn) : outcome value :=
  match find (λ entry, entry.1 err) eh with
  | Some entry => entry.2 err
  | None => ErrorHandler_unregistered err
  end.

(** ** Requests and the response under construction *)

Record request := {
  method : string;
  input : value;
}.

(** [ctx.response]: the ['status'] entry may be absent, ['headers'] is a dict. *)
Record response := {
  status : option Z;
  headers : gmap string string;
}.

(** [ctx.response.setdefault('status', code)] *)
Definition setdefault_status (code : Z) (resp : response) : response :=
  {| status := Some (default code (status resp)); headers := headers resp |}.

(** [ctx.response['headers'].setdefault(key, v)] *)
Definition setdefault_header (key v : string) (resp : response) : response :=
  {| status := status resp;
     headers := match headers resp !! key with
                | Some _ => headers resp
                | None => <[key := v]> (headers resp)
                end |}.

(** [str.upper] on the ASCII letters, which is all an HTTP method holds. *)
Definition upper_ascii (c : ascii) : ascii :=
  let n := nat_of_ascii c in
  if (97 <=? n)%nat && (n <=? 122)%nat then ascii_of_nat (n - 32) else c.

Fixpoint upper (s : string) : string :=
  match s with
  | EmptyString => EmptyString
  | String c s' => String (upper_ascii c) (upper s')
  end.

(** ** Resource and Collection *)

(** The attributes [Resource.__init__] and [Collection.__init__] set.
    [wrapped] is [__wrapped__] called with keyword arguments and
    [wrapped_params] the names [inspect.getfullargspec] reports for it
    ([args] followed by [kwonlyargs]).  [collects] is present exactly on a
    [Collection]: the collected resource and the binding. *)
Inductive resource := mkResource {
  name : string;
  model : gmap string operation;
  lazy : bool;
  wrapped_params : list string;
  wrapped : gmap string value → outcome value;
  error_handler : exn → outcome value;
  collects : option (resource * gmap string string);
}.

(** [isinstance(r, Collection)] *)
Definition is_Collection (r : resource) : bool :=
  match collects r with
  | Some _ => true
  | None => false
  end.

(** [Resource._on_lookup_err] *)
Definition _on_lookup_err (err : exn) : outcome value := Raise NotFound.

(** The keyword arguments of the [Resource] constructor the embedding follows. *)
Record resource_args := {
  arg_name : option string;
  arg_model : option (gmap string operation);
  arg_lazy : option bool;
  arg_error_handler : option (exn → outcome value);
  arg_wrapped : option (list string * (gmap string value → outcome value));
}.

Section Resource.
Context `{Collaborators}.

(** [Resource.__init__]; [uuid_name] stands for [str(uuid.uuid4())] and
    [generic_model] for [DataModel()]. *)
Definition Resource_init
    (uuid_name : string) (generic_model : gmap string operation)
    (args : resource_args) (collects : option (resource * gmap string string)) : resource :=
  {| name := default uuid_name (arg_name args);
     model := default generic_model (arg_model args);
     lazy := default false (arg_lazy args);
     wrapped_params := (default ([], λ _, Return (VMap [])) (arg_wrapped args)).1;
     wrapped := (default ([], λ _, Return (VMap [])) (arg_wrapped args)).2;
     error_handler :=
       match arg_error_handler args with
       | Some eh => eh
       | None => ErrorHandler_call (ErrorHandler_register is_LookupError _on_lookup_err [])
       end;
     collects := collects |}.

(** [Collection.__init__]: a resource that also records what it collects,
    with the binding given as [bindargs] or else an empty one. *)
Definition Collection_init
    (uuid_name : string) (generic_model : gmap string operation)
    (child : resource) (args : resource_args)
    (bindargs : option (gmap string string)) : resource :=
  Resource_init uuid_name generic_model args (Some (child, default ∅ bindargs)).

(** The placeholder arguments of the introspection call: every declared
    parameter bound to [None]. *)
Definition fake_args (r : resource) : gmap string value :=
  list_to_map ((λ n, (n, VNone)) <$> wrapped_params r).

(** [Resource.compose_model] *)
Definition compose_model
    (r : resource) (wrapper_args : option (gmap string value))
    : outcome (gmap string operation) :=
  if lazy r then
    let wrapper_args := default (fake_args r) wrapper_args in
    dataset ← wrapped r wrapper_args;
    let dsdm := DataSetDataModel dataset in
    Return (compose (model r) dsdm)
  else
    match wrapper_args with
    | Some wrapper_args =>
        if negb (contains (model r) "read") then
          let new_model : gmap string operation :=
            {[ "read" := λ args, match args with
                                 | [] => wrapped r wrapper_args
                                 | _ => Raise TypeError
                                 end ]} in
          Return (compose (model r) new_model)
        else Return (model r)
    | None => Return (model r)
    end.

(** [model = self.compose_model() if model is None else model] *)
Definition model_or_composed
    (r : resource) (m : option (gmap string operation)) : outcome (gmap string operation) :=
  match m with
  | None => compose_model r None
  | Some m => Return m
  end.

(** [Resource.get_supported_methods] *)
Definition Resource_get_supported_methods
    (r : resource) (m : option (gmap string operation)) : outcome (gset string) :=
  model ← model_or_composed r m;
  let supported_methods : gset string := {[ "GET" ]} in
  let supported_methods :=
    if contains model "delete" then supported_methods ∪ {[ "DELETE" ]}
    else supported_methods in
  let supported_methods :=
    if contains model "write" then supported_methods ∪ {[ "PUT" ]}
    else supported_methods in
  Return supported_methods.

(** [Collection.get_supported_methods] *)
Definition Collection_get_supported_methods
    (r : resource) (m : option (gmap string operation)) : outcome (gset string) :=
  model ← model_or_composed r m;
  supported ← Resource_get_supported_methods r (Some model);
  Return (if contains model "make" then supported ∪ {[ "POST" ]} else supported).

(** [self.get_supported_methods]: the method of the class of [self]. *)
Definition get_supported_methods
    (r : resource) (m : option (gmap string operation)) : outcome (gset string) :=
  if is_Collection r then Collection_get_supported_methods r m
  else Resource_get_supported_methods r m.

(** [Resource._handle_request_with_model]; [list(supported_methods)] is
    [elements]. *)
Definition Resource_handle_request_with_model
    (r : resource) (req : request) (method : string)
    (model : gmap string operation) : outcome value :=
  supported_methods ← get_supported_methods r (Some model);
  if negb (bool_decide (method ∈ supported_methods)) && negb (String.eqb method "HEAD") then
    Raise (MethodNotAllowed (elements supported_methods))
  else if String.eqb method "GET" || String.eqb method "HEAD" then
    read ← getitem model "read"; read []
  else if String.eqb method "DELETE" then
    delete ← getitem model "delete"; delete []
  else if String.eqb method "PUT" then
    write ← getitem model "write"; write [input req]
  else Raise ValueError.

End Resource.

Section Collection.
Context `{Collaborators}.

(** The dict comprehension
    [{(bind_args[k] if k in bind_args else k): ret_data[k] for k in ret_data}] *)
Definition bound_args
    (bind_args : gmap string string) (ret_data : list (string * value))
    : gmap string value :=
  foldl (λ args kv, <[default kv.1 (bind_args !! kv.1) := kv.2]> args) ∅ ret_data.

(** [Collection._handle_request_with_model]; the state is [ctx.response]. *)
Definition Collection_handle_request_with_model
    (r : resource) (req : request) (method : string)
    (model : gmap string operation) (resp : response) : outcome value * response :=
  if String.eqb method "POST" && contains model "make" then
    match make ← getitem model "make"; make [input req] with
    | Raise e => (Raise e, resp)
    | Return ret_data =>
        let resp := setdefault_status 201 resp in
        match ret_data with
        | VMap items =>
            match collects r with
            | None => (Raise AttributeError, resp)
            | Some (child, bind_args) =>
                let args := bound_args bind_args items in
                match url_adapter_build (name child) args with
                | Raise URLBuildError => (Return ret_data, resp)
                | Raise e => (Raise e, resp)
                | Return url =>
                    (Return ret_data, setdefault_header "Location" url resp)
                end
            end
        | _ => (Return ret_data, resp)
        end
    end
  else (Resource_handle_request_with_model r req method model, resp).

(** [self._handle_request_with_model]: the method of the class of [self]. *)
Definition _handle_request_with_model
    (r : resource) (req : request) (method : string)
    (model : gmap string operation) (resp : response) : outcome value * response :=
  if is_Collection r then Collection_handle_request_with_model r req method model resp
  else (Resource_handle_request_with_model r req method model, resp).

(** The body of the [try] block of [Resource.handle_request]. *)
Definition dispatch
    (r : resource) (req : request) (wrapper_args : option (gmap string value))
    (resp : response) : outcome value * response :=
  let method := upper (method req) in
  match compose_model r wrapper_args with
  | Raise err => (Raise err, resp)
  | Return model => _handle_request_with_model r req method model resp
  end.

(** [Resource.handle_request]: [except BaseException as err: return
    self.error_handler(err)]. *)
Definition handle_request
    (r : resource) (req : request) (wrapper_args : option (gmap string value))
    (resp : response) : outcome value * response :=
  match dispatch r req wrapper_args resp with
  | (Return v, resp') => (Return v, resp')
  | (Raise err, resp') => (error_handler r err, resp')
  end.

End Collection.

(** ** Insertion-ordered dictionaries *)

(** A Python [dict] with string keys: the pairs in insertion order. *)
Abbreviation odict V := (list (string * V)) (only parsing).

(** [d.get(k)] *)
Fixpoint od_get {V} (d : odict V) (k : string) : option V :=
  match d with
  | [] => None
  | (k', v) :: d' => if String.eqb k' k then Some v else od_get d' k
  end.

(** [k in d] *)
Definition od_contains {V} (d : odict V) (k : string) : bool :=
  match od_get d k with
  | Some _ => true
  | None => false
  end.

(** [d[k] = v]: an existing key keeps its position, a new one goes last. *)
Fixpoint od_set {V} (k : string) (v : V) (d : odict V) : odict V :=
  match d with
  | [] => [(k, v)]
  | (k', v') :: d' =>
      if String.eqb k' k then (k', v) :: d' else (k', v') :: od_set k v d'
  end.

(** [d.update(other)] *)
Definition od_update {V} (d other : odict V) : odict V :=
  foldl (λ acc kv, od_set kv.1 kv.2 acc) d other.

(** [del d[k]] *)
Fixpoint od_del {V} (k : string) (d : odict V) : outcome (odict V) :=
  match d with
  | [] => Raise (KeyError k)
  | (k', v') :: d' =>
      if String.eqb k' k then Return d'
      else d'' ← od_del k d'; Return ((k', v') :: d'')
  end.

(** [list(d)]: the keys in order. *)
Definition od_keys {V} (d : odict V) : list string := d.*1.

(** ** Converter specifications *)

(** What an application may pass as a converter to [enforce]. *)
Inductive raw_spec :=
| RawStr (s : string)
| RawList (items : list raw_spec)
| RawCallable (fn : value → outcome value)
| RawNone
| RawBool (b : bool)
| RawInt (z : Z).

(** What [validation_specs] holds for a field: the results of
    [validate_item_spec] and, after preparation, of [fix_spec]. *)
Inductive stored_spec :=
| SFalse
| SNone
| SNamed (cname : string) (args : option string)
| SList (inner : stored_spec)
| SCallable (fn : value → outcome value)
| SPrepared (fullmatch : string → bool) (to_python : string → outcome value).

Definition is_name_start (c : ascii) : bool :=
  let n := nat_of_ascii c in
  ((97 <=? n) && (n <=? 122) || (65 <=? n) && (n <=? 90) || (n =? 95))%nat.

Definition is_name_char (c : ascii) : bool :=
  let n := nat_of_ascii c in
  is_name_start c || ((48 <=? n) && (n <=? 57))%nat.

(** The longest prefix of name characters and what follows it. *)
Fixpoint span_name (s : string) : string * string :=
  match s with
  | String c s' =>
      if is_name_char c then let (n, rest) := span_name s' in (String c n, rest)
      else (EmptyString, s)
  | EmptyString => (EmptyString, EmptyString)
  end.

(** [s] without its last character when that is a closing parenthesis. *)
Fixpoint strip_closing (s : string) : option string :=
  match s with
  | EmptyString => None
  | String c EmptyString => if Ascii.eqb c ")" then Some EmptyString else None
  | String c s' => String c <$> strip_closing s'
  end.

Fixpoint has_newline (s : string) : bool :=
  match s with
  | EmptyString => false
  | String c s' => (nat_of_ascii c =? 10)%nat || has_newline s'
  end.

(** [_converter_re.fullmatch(s)], with the groups [name] and [args].  The
    pattern is a name (a letter or underscore, then letters, digits and
    underscores), optionally followed by an argument text between
    parentheses.  A name character is never a parenthesis, so the name is
    the longest prefix of name characters; the argument text is matched by
    dots, which do not match a newline. *)
Definition _converter_re_fullmatch (s : string) : option (string * option string) :=
  match s with
  | EmptyString => None
  | String c _ =>
      if is_name_start c then
        let (n, rest) := span_name s in
        match rest with
        | EmptyString => Some (n, None)
        | String p rest' =>
            if Ascii.eqb p "(" then
              match strip_closing rest' with
              | Some args => if has_newline args then None else Some (n, Some args)
              | None => None
              end
            else None
        end
      else None
  end.

(** [validate_item_spec], the local function of [__register_spec]. *)
Fixpoint validate_item_spec (item_spec : raw_spec) : stored_spec :=
  match item_spec with
  | RawStr s =>
      match _converter_re_fullmatch s with
      | Some (n, args) => SNamed n args
      | None => SFalse
      end
  | RawList items =>
      match items with
      | [inner] => SList (validate_item_spec inner)
      | _ => SFalse
      end
  | RawCallable fn => SCallable fn
  | RawNone | RawBool _ | RawInt _ => SFalse
  end.

(** [item_spec is False] *)
Definition is_False (item_spec : raw_spec) : bool :=
  match item_spec with
  | RawBool false => true
  | _ => false
  end.

(** ** The validator *)

Record validator := {
  include_collections : bool;
  validation_specs : gmap (option string) (odict stored_spec);
  restriction_specs : gmap string (odict bool);
  strip_extras : gmap string bool;
}.

(** [Validator.__init__] without an app *)
Definition Validator_init (include_collections : bool) : validator :=
  {| include_collections := include_collections;
     validation_specs := ∅; restriction_specs := ∅; strip_extras := ∅ |}.

(** The [for] loop of [__register_spec]: every item of [spec] is replaced
    by its normal form unless the test [item_spec is False] raises. *)
Fixpoint normalize_items (spec : odict raw_spec) : outcome (odict stored_spec) :=
  match spec with
  | [] => Return []
  | (field, item_spec) :: rest =>
      let new_item_spec := validate_item_spec item_spec in
      if is_False item_spec then Raise InvalidSpecificationError
      else rest' ← normalize_items rest; Return ((field, new_item_spec) :: rest')
  end.

(** [Validator.__register_spec] *)
Definition __register_spec
    (v : validator) (key : option string) (spec : odict raw_spec) : outcome validator :=
  spec' ← normalize_items spec;
  Return {| include_collections := include_collections v;
            validation_specs :=
              <[key := od_update (default [] (validation_specs v !! key)) spec']>
                (validation_specs v);
            restriction_specs := restriction_specs v;
            strip_extras := strip_extras v |}.

(** [Validator.enforce(resource, **validator_spec)] *)
Definition enforce (v : validator) (r : resource) (validator_spec : odict raw_spec)
    : outcome validator :=
  __register_spec v (Some (name r)) validator_spec.

(** [Validator.enforce_all] *)
Definition enforce_all (v : validator) (validator_spec : odict raw_spec)
    : outcome validator :=
  __register_spec v None validator_spec.

Fixpoint leading_asterisks (s : string) : nat * string :=
  match s with
  | String c s' =>
      if Ascii.eqb c "*" then let (n, rest) := leading_asterisks s' in (S n, rest)
      else (0, s)
  | EmptyString => (0, EmptyString)
  end.

Fixpoint asterisks (n : nat) : string :=
  match n with
  | 0 => EmptyString
  | S n' => String "*" (asterisks n')
  end.

(** [conv_field], the local function of [restrict].  [FIELD_REGEX] is
    anchored at the start and made of a greedy group of asterisks, a
    back-reference to it and an optional asterisk in group 2: on [n] leading
    asterisks it matches all of them, group 1 taking [n / 2], the
    back-reference as many and group 2 the odd one left over.  The
    substitution keeps group 1. *)
Definition conv_field (field_name : string) : string * bool :=
  let (n, rest) := leading_asterisks field_name in
  (asterisks (n / 2) +:+ rest, Nat.odd n).

(** [restrict_to], the local function of [restrict] *)
Definition restrict_to
    (v : validator) (strip_extra : bool) (r : resource) (fields : list string) : validator :=
  let fields := conv_field <$> fields in
  {| include_collections := include_collections v;
     validation_specs := validation_specs v;
     restriction_specs :=
       <[name r := od_update (default [] (restriction_specs v !! name r)) fields]>
         (restriction_specs v);
     strip_extras := <[name r := strip_extra]> (strip_extras v) |}.

(** [Validator.restrict(resource, *fields, strip_extra=...)] *)
Definition restrict
    (v : validator) (r : resource) (fields : list string) (strip_extra : bool) : validator :=
  restrict_to v strip_extra r fields.

(** ** The container wrapper *)

(** werkzeug's [MultiDict] is not among the sources.  It is a [dict] from
    each key to the list of its values: [md[key]] is the first value of
    the key and raises a [KeyError] when the key is absent or its list
    empty, [md[key] = x] gives the key the one value [x], [md.getlist(key)]
    is the list of the values, empty for an absent key, [md.get(key, dflt)]
    is [md[key]] or [dflt], [md.setlist(key, items)] gives the key the
    values [list(items)], and deletion, membership, iteration and [copy]
    are those of a [dict]. *)
Abbreviation multidict := (list (string * list value)) (only parsing).

(** An object by its members: the names and values that
    [inspect.getmembers] lists, in the order of the names. *)
Abbreviation object := (list (string * value)) (only parsing).

(** What [validate] may be given, by the test of
    [_ContainerWrapper.__init__] that it passes: a Sequence (a list, a
    tuple, or a string as its characters) by its items, a [MultiDict],
    another Mapping, or none of these. *)
Inductive input_data :=
| Sequence (c : list value)
| MultiDict (c : multidict)
| Mapping (c : odict value)
| Object (c : object).

(** The wrapper by its attribute [_c]; [_direct] and [_is_multidict] are
    the cases [CDirect] and [CMulti].  [_list_fields], which only a wrapped
    [MultiDict] has, is a Python set: it is kept as the list of its fields
    in the order they were added, in which [unwrap] visits them. *)
Inductive container :=
| CSeq (c : list value)
| CMulti (c : multidict) (_list_fields : list string)
| CMap (c : odict value)
| CDirect (c : object).

(** What [__check_item] is given for a key: the name of a field, or the
    position of an item in the wrapper of a list. *)
Inductive key :=
| KField (field : string)
| KIndex (i : nat).

(** [_ContainerWrapper(container)]: [list(container)], [container.copy()],
    [dict(container)], or the object itself. *)
Definition _ContainerWrapper (data : input_data) : container :=
  match data with
  | Sequence c => CSeq c
  | MultiDict c => CMulti (od_update [] c) []
  | Mapping c => CMap (od_update [] c)
  | Object c => CDirect c
  end.

(** The items of a string: its characters. *)
Definition characters (s : string) : list value :=
  (λ c, VStr (String c EmptyString)) <$> String.list_ascii_of_string s.

(** [isinstance(l, Sequence)], with the items of [l]: a list, a tuple, or a
    string as the sequence of its characters. *)
Definition as_sequence (l : value) : option (list value) :=
  match l with
  | VSeq items | VTuple items => Some items
  | VStr s => Some (characters s)
  | _ => None
  end.

(** [list(x)], for what can be iterated: a sequence by its items and a
    dict by its keys. *)
Definition as_iterable (x : value) : option (list value) :=
  match x with
  | VMap items => Some (VStr <$> items.*1)
  | _ => as_sequence x
  end.

(** [hash(x)] returns: lists and dicts cannot be hashed, and a tuple can
    when its items can. *)
Fixpoint hashable (x : value) : bool :=
  match x with
  | VSeq _ | VMap _ => false
  | VTuple items => forallb hashable items
  | _ => true
  end.

(** [x == field], for a string [field] *)
Definition is_str (field : string) (x : value) : bool :=
  match x with
  | VStr s => String.eqb s field
  | _ => false
  end.

(** The position that [c[i]] names: [i] is an integer, which a boolean
    is, and counts from the end when negative. *)
Definition list_index (c : list value) (i : value) : outcome nat :=
  let len := Z.of_nat (length c) in
  let position z :=
    if (0 <=? z)%Z && (z <? len)%Z then Return (Z.to_nat z)
    else if (- len <=? z)%Z && (z <? 0)%Z then Return (Z.to_nat (len + z))
    else Raise IndexError in
  match i with
  | VInt z => position z
  | VBool b => position (if b then 1%Z else 0%Z)
  | _ => Raise TypeError
  end.

(** [getattr], [hasattr] are the lookup in the members.  [setattr] keeps
    the members in the order of their names. *)
Fixpoint setattr (name : string) (x : value) (o : object) : object :=
  match o with
  | [] => [(name, x)]
  | (n, y) :: o' =>
      if String.eqb n name then (n, x) :: o'
      else if String.ltb name n then (name, x) :: (n, y) :: o'
      else (n, y) :: setattr name x o'
  end.

(** [delattr] *)
Fixpoint delattr (name : string) (o : object) : outcome object :=
  match o with
  | [] => Raise AttributeError
  | (n, y) :: o' =>
      if String.eqb n name then Return o'
      else o'' ← delattr name o'; Return ((n, y) :: o'')
  end.

(** [_ContainerWrapper.__getitem__].  The dictionaries of the model have
    strings for keys, so that an index is a key that they lack. *)
Definition c_getitem (data : container) (k : key) : outcome value :=
  match data, k with
  | CMap c, KField field =>
      match od_get c field with
      | Some x => Return x
      | None => Raise (KeyError field)
      end
  | CMap c, KIndex _ => Raise (KeyError "")
  | CMulti c _, KField field =>
      match od_get c field with
      | Some (x :: _) => Return x
      | _ => Raise (KeyError field)
      end
  | CMulti c _, KIndex _ => Raise (KeyError "")
  | CSeq c, KIndex i =>
      match c !! i with
      | Some x => Return x
      | None => Raise IndexError
      end
  | CSeq c, KField _ => Raise TypeError
  | CDirect c, KField field =>
      match od_get c field with
      | Some x => Return x
      | None => Raise AttributeError
      end
  | CDirect c, KIndex _ => Raise TypeError
  end.

(** What [_ContainerWrapper.getlist] returns. *)
Definition c_getlist (data : container) (k : key) : outcome (list value) :=
  match data with
  | CMulti c _ =>
      match k with
      | KField field => Return (default [] (od_get c field))
      | KIndex _ => Return []
      end
  | _ =>
      l ← c_getitem data k;
      match as_sequence l with
      | Some items => Return items
      | None => Raise ValueError
      end
  end.

(** The wrapper after [getlist]: that of a [MultiDict] has added the key
    to its [_list_fields]. *)
Definition c_getlist_record (data : container) (k : key) : container :=
  match data, k with
  | CMulti c list_fields, KField field =>
      CMulti c (if bool_decide (field ∈ list_fields) then list_fields
                else list_fields ++ [field])
  | _, _ => data
  end.

(** [_ContainerWrapper.__setitem__], for a field *)
Definition c_setitem (data : container) (field : string) (x : value) : outcome container :=
  match data with
  | CSeq _ => Raise TypeError
  | CMulti c list_fields => Return (CMulti (od_set field [x] c) list_fields)
  | CMap c => Return (CMap (od_set field x c))
  | CDirect c => Return (CDirect (setattr field x c))
  end.

(** [_ContainerWrapper.__delitem__]; the key is what the iteration of the
    wrapper gave. *)
Definition c_delitem (data : container) (field : value) : outcome container :=
  match data with
  | CSeq c => i ← list_index c field; Return (CSeq (delete i c))
  | CMulti c list_fields =>
      match field with
      | VStr k => c' ← od_del k c; Return (CMulti c' list_fields)
      | _ => Raise (if hashable field then KeyError "" else TypeError)
      end
  | CMap c =>
      match field with
      | VStr k => c' ← od_del k c; Return (CMap c')
      | _ => Raise (if hashable field then KeyError "" else TypeError)
      end
  | CDirect c =>
      match field with
      | VStr name => c' ← delattr name c; Return (CDirect c')
      | _ => Raise TypeError
      end
  end.

(** [_ContainerWrapper.__contains__], for a field *)
Definition c_contains (data : container) (field : string) : bool :=
  match data with
  | CSeq c => existsb (is_str field) c
  | CMulti c _ => od_contains c field
  | CMap c => od_contains c field
  | CDirect c => od_contains c field
  end.

(** [_ContainerWrapper.__iter__]: the items of a sequence, the keys of a
    dictionary, and for an object the pairs that [getmembers] lists. *)
Definition c_iter (data : container) : list value :=
  match data with
  | CSeq c => c
  | CMulti c _ => VStr <$> od_keys c
  | CMap c => VStr <$> od_keys c
  | CDirect c => (λ member, VTuple [VStr member.1; member.2]) <$> c
  end.

(** One round of the loop of [unwrap] *)
Definition setlist_field (c : multidict) (field : string) : outcome multidict :=
  let items := match od_get c field with
               | Some (x :: _) => x
               | _ => VSeq []
               end in
  match as_iterable items with
  | Some items => Return (od_set field items c)
  | None => Raise TypeError
  end.

(** [_ContainerWrapper.unwrap] *)
Definition unwrap (data : container) : outcome input_data :=
  match data with
  | CSeq c => Return (Sequence c)
  | CMulti c list_fields =>
      c' ← foldl (λ acc field, c ← acc; setlist_field c field) (Return c) list_fields;
      Return (MultiDict c')
  | CMap c => Return (Mapping c)
  | CDirect c => Return (Object c)
  end.

(** [isinstance(data, Mapping)], which holds of a [MultiDict] too. *)
Definition is_mapping (data : input_data) : bool :=
  match data with
  | MultiDict _ | Mapping _ => true
  | _ => false
  end.

(** [list(data)] for a mapping: its keys in order. *)
Definition keys (data : input_data) : list string :=
  match data with
  | MultiDict c => od_keys c
  | Mapping c => od_keys c
  | _ => []
  end.

(** The wrapper holds a dictionary. *)
Definition c_is_mapping (data : container) : bool :=
  match data with
  | CMulti _ _ | CMap _ => true
  | _ => false
  end.

(** The list fields of a wrapped [MultiDict] are among its keys, as they
    are when [getlist] is called for fields that the wrapper holds. *)
Definition list_fields_held (data : container) : Prop :=
  match data with
  | CMulti c list_fields => Forall (λ field, od_contains c field = true) list_fields
  | _ => True
  end.

(** The keys of the dictionary that a wrapper holds. *)
Definition c_keys (data : container) : list string :=
  match data with
  | CMulti c _ => od_keys c
  | CMap c => od_keys c
  | _ => []
  end.

(** ** Validation *)

(** [Validator.__check_item], by what it returns or raises.  It changes
    the wrapper only through [getlist]; see [checked]. *)
Fixpoint __check_item (data : container) (k : key) (item_spec : stored_spec)
    {struct item_spec} : outcome value :=
  match item_spec with
  | SCallable fn => x ← c_getitem data k; fn x
  | SList child_spec =>
      l ← c_getlist data k;
      let unconverted_items := _ContainerWrapper (Sequence l) in
      converted_items ←
        mapM (λ i, __check_item unconverted_items (KIndex i) child_spec)
             (seq 0 (length l));
      Return (VSeq converted_items)
  | SPrepared fullmatch to_python =>
      val ← c_getitem data k;
      match val with
      | VStr s => if fullmatch s then to_python s else Raise ValueError
      | _ => Raise TypeError
      end
  | SNamed _ _ => val ← c_getitem data k; Raise AttributeError
  | SFalse | SNone => Raise InvalidSpecificationError
  end.

(** The wrapper after [__check_item]: the list branch calls [getlist] on
    it, before anything that can raise, and the items of the list are
    checked in a wrapper of their own. *)
Definition checked (data : container) (k : key) (item_spec : stored_spec) : container :=
  match item_spec with
  | SList _ => c_getlist_record data k
  | _ => data
  end.

(** [field in restrictions]: the field is hashed, and only a string can
    be equal to a key. *)
Definition in_restrictions (restrictions : odict bool) (field : value) : outcome bool :=
  if hashable field then
    Return match field with
           | VStr s => od_contains restrictions s
           | _ => false
           end
  else Raise TypeError.

(** [[field for field in data if field not in restrictions]] *)
Fixpoint extra_fields (restrictions : odict bool) (fields : list value)
    : outcome (list value) :=
  match fields with
  | [] => Return []
  | field :: rest =>
      known ← in_restrictions restrictions field;
      extras ← extra_fields restrictions rest;
      Return (if known : bool then extras else field :: extras)
  end.

(** [for field in extras: del data[field]] *)
Fixpoint delete_fields (extras : list value) (data : container) : outcome container :=
  match extras with
  | [] => Return data
  | field :: rest => data' ← c_delitem data field; delete_fields rest data'
  end.

(** The allow-list and strip flag [__handle_restrictions] works with: those
    of the resource or, failing that, of the resource it collects. *)
Definition active_restrictions (v : validator) (r : resource) : option (odict bool) * bool :=
  let strip := default false (strip_extras v !! name r) in
  let restrictions := restriction_specs v !! name r in
  match restrictions, include_collections v, collects r with
  | None, true, Some (child, _) =>
      (Some (default [] (restriction_specs v !! name child)),
       default false (strip_extras v !! name child))
  | _, _, _ => (restrictions, strip)
  end.

(** [Validator.__handle_restrictions]; [r] is [ctx.resource]. *)
Definition __handle_restrictions
    (v : validator) (r : resource) (data : container) : outcome container :=
  let '(restrictions, strip) := active_restrictions v r in
  match restrictions with
  | Some restrictions =>
      extras ← extra_fields restrictions (c_iter data);
      data ←
        (if bool_decide (extras ≠ []) && strip then delete_fields extras data
         else if bool_decide (extras ≠ []) then Raise (UnexpectedFields extras)
         else Return data);
      let missing :=
        (filter (λ fr, fr.2 = true ∧ c_contains data fr.1 = false) restrictions).*1 in
      if bool_decide (missing ≠ []) then Raise (MissingFields missing)
      else Return data
  | None => Return data
  end.

(** The spec [validate] merges for [ctx.resource]. *)
Definition merged_spec (v : validator) (r : resource) : odict stored_spec :=
  let spec := [] in
  let spec := od_update spec (default [] (validation_specs v !! None)) in
  let spec :=
    match include_collections v, collects r with
    | true, Some (child, _) =>
        od_update spec (default [] (validation_specs v !! Some (name child)))
    | _, _ => spec
    end in
  od_update spec (default [] (validation_specs v !! Some (name r))).

(** The conversion loop of [validate] over [spec.items()].  The
    assignment of a converted value is outside the [try], so that what it
    raises leaves [validate]. *)
Fixpoint convert_fields
    (spec : odict stored_spec) (wrapped : container) (conversion_errs : list string)
    : outcome (container * list string) :=
  match spec with
  | [] => Return (wrapped, conversion_errs)
  | (field, field_spec) :: rest =>
      if c_contains wrapped field then
        let after := checked wrapped (KField field) field_spec in
        match __check_item wrapped (KField field) field_spec with
        | Raise e =>
            if is_InvalidSpecificationError e then Raise e
            else convert_fields rest after (conversion_errs ++ [field])
        | Return converted =>
            wrapped' ← c_setitem after field converted;
            convert_fields rest wrapped' conversion_errs
        end
      else convert_fields rest wrapped conversion_errs
  end.

(** [Validator.validate]; [r] is [ctx.resource].  A sequence and a
    dictionary are copied by the wrapper; an object is not, so that what
    was assigned to it before a failure stays assigned, which the outcome
    does not show. *)
Definition validate (v : validator) (r : resource) (data : input_data)
    : outcome input_data :=
  let spec := merged_spec v r in
  wrapped ← __handle_restrictions v r (_ContainerWrapper data);
  '(wrapped, conversion_errs) ← convert_fields spec wrapped [];
  if bool_decide (conversion_errs ≠ []) then Raise (InvalidFields conversion_errs)
  else unwrap wrapped.

(** The fields of [spec] that [wrapped] holds and whose check raises, in
    the order of [spec]. *)
Definition failing_fields (spec : odict stored_spec) (wrapped : container) : list string :=
  (filter (λ fs, c_contains wrapped fs.1 = true ∧
                 raises (__check_item wrapped (KField fs.1) fs.2) = true) spec).*1.

(** The keys of a Python dict are distinct; [validator_wf] says so of the
    tables of a validator. *)
Definition validator_wf (v : validator) : Prop :=
  ∀ key table, validation_specs v !! key = Some table → NoDup (od_keys table).

(** ** Preparation of the converters *)

(** A converter of werkzeug's routing: the pattern of what it accepts and
    its conversion. *)
Record converter := {
  converter_regex : string;
  converter_to_python : string → outcome value;
}.

(** What [__prepare_converters] calls from werkzeug and [re]: the parser of
    converter arguments, which returns positional and keyword arguments,
    the converter classes of [app.url_map.converters], each called with
    such arguments, and [re.compile], whose result is kept as its
    [fullmatch] test. *)
Class Routing := {
  parse_converter_args : string → outcome (list value * list (string * value));
  url_map_converters :
    gmap string (list value * list (string * value) → outcome converter);
  re_compile : string → outcome (string → bool);
}.

Section Prepare.
Context `{Routing}.

(** [fix_spec], the local function of [__prepare_converters]; its result
    [None] is [SNone]. *)
Fixpoint fix_spec (item_spec : stored_spec) : outcome stored_spec :=
  match item_spec with
  | SNamed cname args =>
      parsed ← match args with
               | None => Return ([], [])
               | Some a => parse_converter_args a
               end;
      match url_map_converters !! cname with
      | None => Return SNone
      | Some ccls =>
          converter ← ccls parsed;
          compiled_re ← re_compile (converter_regex converter);
          Return (SPrepared compiled_re (converter_to_python converter))
      end
  | SList inner => fixed ← fix_spec inner; Return (SList fixed)
  | SFalse | SNone | SCallable _ | SPrepared _ _ => Return item_spec
  end.

(** The inner loop of [__prepare_converters] over the items of the table
    of one resource; the table is updated in place, so that what was
    stored before an exception stays stored. *)
Fixpoint prepare_fields (items table : odict stored_spec)
    : outcome () * odict stored_spec :=
  match items with
  | [] => (Return (), table)
  | (field, spec) :: rest =>
      match fix_spec spec with
      | Raise e => (Raise e, table)
      | Return SNone => (Raise InvalidSpecificationError, table)
      | Return new_spec => prepare_fields rest (od_set field new_spec table)
      end
  end.

(** [__prepare_converters] on the table of one resource. *)
Definition prepare_table (table : odict stored_spec) : outcome () * odict stored_spec :=
  prepare_fields table table.

End Prepare.




(** [isinstance(err, ValueError)]: [InvalidSpecificationError] is declared
    as a subclass of [ValueError]. *)
Definition is_ValueError (err : exn) : bool :=
  match err with
  | ValueError | InvalidSpecificationError => true
  | _ => false
  end.

(** ** Concrete collaborators and resources for the examples *)

(** Composition as the specification words it, a dataset model that reads
    the dataset back, an error handler that re-raises what nobody
    registered for, and a URL adapter that resolves no endpoint. *)
Definition example_collaborators : Collaborators :=
  {| compose := compose_second_wins;
     DataSetDataModel := λ dataset, {[ "read" := λ _, Return dataset ]};
     ErrorHandler_unregistered := Raise;
     url_adapter_build := λ _ _, Raise URLBuildError |}.

(** [Resource(name=n, model=m)] *)
Definition example_resource (n : string) (m : gmap string operation) : resource :=
  @Resource_init example_collaborators "generated" ∅
    {| arg_name := Some n; arg_model := Some m; arg_lazy := None;
       arg_error_handler := None; arg_wrapped := None |} None.

(** [Collection(of, name=n, model=m)] *)
Definition example_collection
    (child : resource) (n : string) (m : gmap string operation) : resource :=
  @Collection_init example_collaborators "generated" ∅ child
    {| arg_name := Some n; arg_model := Some m; arg_lazy := None;
       arg_error_handler := None; arg_wrapped := None |} None.

(** A lazy resource whose handler returns the text "dataset" and whose
    declared model reads the text "declared". *)
Definition example_lazy_resource : resource :=
  @Resource_init example_collaborators "generated" ∅
    {| arg_name := Some "lazy-items";
       arg_model := Some {[ "read" := λ _, Return (VStr "declared") ]};
       arg_lazy := Some true;
       arg_error_handler := None;
       arg_wrapped := Some ([], λ _, Return (VStr "dataset")) |} None.

(** Collaborators whose URL adapter resolves every endpoint to a path made
    of its name. *)
Definition resolving_collaborators : Collaborators :=
  {| compose := compose_second_wins;
     DataSetDataModel := λ dataset, {[ "read" := λ _, Return dataset ]};
     ErrorHandler_unregistered := Raise;
     url_adapter_build := λ endpoint _, Return ("/" +:+ endpoint) |}.

(** A collection of "item" resources, binding the field [id] of a child to
    the URL argument [item_id]; what it makes is the mapping [{"id": 7}]. *)
Definition example_making_collection : resource :=
  @Collection_init example_collaborators "generated" ∅ (example_resource "item" ∅)
    {| arg_name := Some "items";
       arg_model := Some {[ "make" := λ _, Return (VMap [("id", VInt 7)]) ]};
       arg_lazy := None; arg_error_handler := None; arg_wrapped := None |}
    (Some {[ "id" := "item_id" ]}).

(** Collaborators whose URL adapter resolves an endpoint from the URL
    argument [item_id], and only when that is the number 7. *)
Definition binding_collaborators : Collaborators :=
  {| compose := compose_second_wins;
     DataSetDataModel := λ dataset, {[ "read" := λ _, Return dataset ]};
     ErrorHandler_unregistered := Raise;
     url_adapter_build := λ endpoint values,
       match values !! "item_id" with
       | Some (VInt 7) => Return ("/" +:+ endpoint +:+ "/7")
       | _ => Raise URLBuildError
       end |}.

Definition empty_response : response := {| status := None; headers := ∅ |}.



(** A stand-in for [int] on the text of a request: a non-empty string of
    decimal digits converts to its number, any other string raises
    [ValueError]. *)
Fixpoint digits_value (acc : Z) (s : string) : option Z :=
  match s with
  | EmptyString => Some acc
  | String c s' =>
      let n := nat_of_ascii c in
      if (48 <=? n)%nat && (n <=? 57)%nat
      then digits_value (10 * acc + Z.of_nat (n - 48)) s'
      else None
  end.

Definition int_converter (x : value) : outcome value :=
  match x with
  | VStr EmptyString => Raise ValueError
  | VStr s =>
      match digits_value 0 s with
      | Some z => Return (VInt z)
      | None => Raise ValueError
      end
  | VInt z => Return (VInt z)
  | _ => Raise TypeError
  end.

(** [restrict(resource, "*id", "name", strip_extra=...)] on a fresh validator *)
Definition example_restricted_validator (r : resource) (strip_extra : bool) : validator :=
  restrict (Validator_init true) r ["*id"; "name"] strip_extra.

(** [enforce(resource, a=int, b=int, c=int)] on a fresh validator *)
Definition example_enforcing_validator (r : resource) : validator :=
  match enforce (Validator_init true) r
          [("a", RawCallable int_converter); ("b", RawCallable int_converter);
           ("c", RawCallable int_converter)] with
  | Return v => v
  | Raise _ => Validator_init true
  end.

(** Collaborators whose dataset model has no capability at all. *)
Definition bare_collaborators : Collaborators :=
  {| compose := compose_second_wins;
     DataSetDataModel := λ _, ∅;
     ErrorHandler_unregistered := Raise;
     url_adapter_build := λ _ _, Raise URLBuildError |}.

(** A lazy resource without a declared model, over [bare_collaborators]. *)
Definition example_bare_lazy_resource : resource :=
  @Resource_init bare_collaborators "generated" ∅
    {| arg_name := Some "bare"; arg_model := Some ∅; arg_lazy := Some true;
       arg_error_handler := None;
       arg_wrapped := Some (["id"], λ _, Return VNone) |} None.

(** A routing table with the one converter [int], which accepts decimal
    digits; every argument text parses to no arguments. *)
Definition example_routing : Routing :=
  {| parse_converter_args := λ _, Return ([], []);
     url_map_converters :=
       {[ "int" := λ _, Return {| converter_regex := "\d+";
                                  converter_to_python := λ s, int_converter (VStr s) |} ]};
     re_compile := λ _, Return (λ s, bool_decide (is_Some (digits_value 0 s))) |}.

(** * Properties *)

(** ** Supported methods *)

Section SupportedMethods.
Context `{Collaborators}.

Lemma contains_true {V} (m : gmap string V) (k : string) :
  contains m k = true ↔ is_Some (m !! k).
Proof. unfold contains. by rewrite bool_decide_eq_true. Qed.

Lemma contains_false {V} (m : gmap string V) (k : string) :
  contains m k = false ↔ m !! k = None.
Proof.
  unfold contains. rewrite bool_decide_eq_false, eq_None_not_Some. done.
Qed.

(** With a model at hand the supported set is computed without any call
    that could raise, and its members are known exactly. *)
Lemma get_supported_methods_members (r : resource) (m : gmap string operation) :
  ∃ s : gset string,
    get_supported_methods r (Some m) = Return s ∧
    ∀ x, x ∈ s ↔
      (x = "GET") ∨
      (x = "DELETE" ∧ contains m "delete" = true) ∨
      (x = "PUT" ∧ contains m "write" = true) ∨
      (x = "POST" ∧ is_Collection r = true ∧ contains m "make" = true).
Proof.
  unfold get_supported_methods, Collection_get_supported_methods,
    Resource_get_supported_methods.
  simpl.
  destruct (is_Collection r), (contains m "delete"), (contains m "write"),
    (contains m "make"); simpl;
    (eexists; split; [reflexivity | intros x; set_solver]).
Qed.

(** Without a model the set is the one of the model composed for
    introspection. *)
Lemma get_supported_methods_introspection (r : resource) (m : gmap string operation) :
  compose_model r None = Return m →
  get_supported_methods r None = get_supported_methods r (Some m).
Proof.
  intros Hcompose.
  unfold get_supported_methods, Collection_get_supported_methods,
    Resource_get_supported_methods, model_or_composed.
  by rewrite Hcompose.
Qed.

(** C1 (as amended): for every resource and every composed model the
    supported set always holds GET and never HEAD; it holds DELETE exactly
    when the model has [delete], PUT exactly when it has [write], and POST
    exactly when the resource is a Collection and the model has [make]. *)
Theorem supported_methods_by_capability (r : resource) (m : gmap string operation) :
  ∃ s : gset string,
    get_supported_methods r (Some m) = Return s ∧
    ("GET" ∈ s) ∧
    ("HEAD" ∉ s) ∧
    ("DELETE" ∈ s ↔ is_Some (m !! "delete")) ∧
    ("PUT" ∈ s ↔ is_Some (m !! "write")) ∧
    ("POST" ∈ s ↔ is_Collection r = true ∧ is_Some (m !! "make")).
Proof.
  destruct (get_supported_methods_members r m) as (s & Hs & Hin).
  exists s. split; [exact Hs |].
  rewrite <- !contains_true.
  split; [apply Hin; by left |].
  split; [intros Hx; apply Hin in Hx; naive_solver |].
  split; [| split]; (split; intros Hx; [apply Hin in Hx | apply Hin]);
    naive_solver.
Qed.

End SupportedMethods.

(** From [Hsupported : get_supported_methods r (Some model) = Return s],
    the members of [s] as [Hin]. *)
Ltac supported_members Hsupported Hin :=
  lazymatch type of Hsupported with
  | get_supported_methods ?r (Some ?model) = Return ?s =>
      let s' := fresh "s" in
      let Hs' := fresh "Hs" in
      destruct (get_supported_methods_members r model) as (s' & Hs' & Hin);
      rewrite Hsupported in Hs'; injection Hs' as <-
  end.

(** C1, the claim as worded fails: the set computed for a plain resource
    and a model without capabilities does not hold HEAD. *)
Lemma supported_methods_lack_HEAD :
  ∃ s : gset string,
    @get_supported_methods example_collaborators
      (example_resource "items" ∅) (Some ∅) = Return s ∧
    ("HEAD" ∉ s).
Proof. exists {[ "GET" ]}. split; [reflexivity | set_solver]. Qed.

(** ** Method dispatch *)

Section Dispatch.
Context `{Collaborators}.

Lemma getitem_call_not_MethodNotAllowed
    (model : gmap string operation) (cap : string) (args : list value) :
  (∀ c op xs, model !! c = Some op → fails_with is_MethodNotAllowed (op xs) = false) →
  fails_with is_MethodNotAllowed (op ← getitem model cap; op args) = false.
Proof.
  intros Hop. unfold getitem.
  destruct (model !! cap) as [op |] eqn:Hcap; simpl; [by eapply Hop | done].
Qed.

(** A method outside the supported set, other than HEAD, is rejected with
    the list of the supported ones. *)
Lemma Resource_handle_request_with_model_rejects
    (r : resource) (req : request) (m : string)
    (model : gmap string operation) (s : gset string) :
  get_supported_methods r (Some model) = Return s →
  m ∉ s → m ≠ "HEAD" →
  Resource_handle_request_with_model r req m model
  = Raise (MethodNotAllowed (elements s)).
Proof.
  intros Hs Hm Hhead. unfold Resource_handle_request_with_model.
  rewrite Hs. simpl.
  rewrite bool_decide_eq_false_2 by done.
  apply String.eqb_neq in Hhead. by rewrite Hhead.
Qed.

(** Any other method reaches the capability it is mapped to. *)
Lemma Resource_handle_request_with_model_allowed
    (r : resource) (req : request) (m : string)
    (model : gmap string operation) (s : gset string) :
  get_supported_methods r (Some model) = Return s →
  m ∈ s ∨ m = "HEAD" →
  Resource_handle_request_with_model r req m model
  = if String.eqb m "GET" || String.eqb m "HEAD" then
      read ← getitem model "read"; read []
    else if String.eqb m "DELETE" then
      delete ← getitem model "delete"; delete []
    else if String.eqb m "PUT" then
      write ← getitem model "write"; write [input req]
    else Raise ValueError.
Proof.
  intros Hs Hm. unfold Resource_handle_request_with_model.
  rewrite Hs. simpl.
  destruct Hm as [Hm | ->].
  - by rewrite bool_decide_eq_true_2.
  - by rewrite andb_false_r.
Qed.

(** The Collection override only takes the POST of a model that can make;
    the base dispatch is what remains. *)
Lemma _handle_request_with_model_rejects
    (r : resource) (req : request) (m : string)
    (model : gmap string operation) (s : gset string) (resp : response) :
  get_supported_methods r (Some model) = Return s →
  m ∉ s → m ≠ "HEAD" →
  _handle_request_with_model r req m model resp
  = (Raise (MethodNotAllowed (elements s)), resp).
Proof.
  intros Hs Hm Hhead.
  pose proof (Resource_handle_request_with_model_rejects r req m model s Hs Hm Hhead)
    as Hbase.
  unfold _handle_request_with_model, Collection_handle_request_with_model.
  rewrite Hbase.
  destruct (is_Collection r) eqn:Hcoll; [| done].
  destruct (String.eqb m "POST" && contains model "make") eqn:Hpost; [| done].
  apply andb_true_iff in Hpost as [Heq Hmake].
  apply String.eqb_eq in Heq. subst m.
  supported_members Hs Hin.
  exfalso. apply Hm, Hin. naive_solver.
Qed.

(** A supported method, or HEAD, is not rejected: when nothing the
    dispatch calls raises method-not-allowed itself, neither does the
    dispatch. *)
Lemma _handle_request_with_model_allowed
    (r : resource) (req : request) (m : string)
    (model : gmap string operation) (s : gset string) (resp : response) :
  get_supported_methods r (Some model) = Return s →
  (∀ c op xs, model !! c = Some op → fails_with is_MethodNotAllowed (op xs) = false) →
  (∀ endpoint values,
     fails_with is_MethodNotAllowed (url_adapter_build endpoint values) = false) →
  m ∈ s ∨ m = "HEAD" →
  fails_with is_MethodNotAllowed (_handle_request_with_model r req m model resp).1 = false.
Proof.
  intros Hs Hmodel Hbuild Hm.
  assert (Hbase : fails_with is_MethodNotAllowed
                    (Resource_handle_request_with_model r req m model) = false).
  { rewrite (Resource_handle_request_with_model_allowed r req m model s Hs Hm).
    repeat case_match; try by apply getitem_call_not_MethodNotAllowed. done. }
  unfold _handle_request_with_model, Collection_handle_request_with_model.
  destruct (is_Collection r); [| done].
  destruct (String.eqb m "POST" && contains model "make"); [| done].
  pose proof (getitem_call_not_MethodNotAllowed model "make" [input req] Hmodel) as Hmake.
  destruct (make ← getitem model "make"; make [input req]) as [ret_data | e]; [| done].
  destruct ret_data; try done.
  destruct (collects r) as [[child bind_args] |]; [| done].
  pose proof (Hbuild (name child) (bound_args bind_args items)) as Hurl.
  destruct (url_adapter_build _ _) as [url | e]; [done |].
  by destruct e.
Qed.

(** C2: the dispatch of a request fails with method-not-allowed, carrying
    the list of the supported methods, exactly when the upper-cased method
    is neither in the supported set of the composed model nor HEAD; the
    failure is what [handle_request] hands to the error handler.  A PUT to
    a model without [write] and a DELETE to a model without [delete] are
    rejected, and a HEAD never is.  For the converse directions the
    capabilities of the model and the URL adapter are taken not to raise
    method-not-allowed themselves. *)
Theorem method_not_allowed_iff_unsupported
    (r : resource) (req : request) (wrapper_args : option (gmap string value))
    (model : gmap string operation) (s : gset string) (resp : response)
    (Hcompose : compose_model r wrapper_args = Return model)
    (Hsupported : get_supported_methods r (Some model) = Return s)
    (Hmodel : ∀ c op xs, model !! c = Some op →
                fails_with is_MethodNotAllowed (op xs) = false)
    (Hbuild : ∀ endpoint values,
                fails_with is_MethodNotAllowed (url_adapter_build endpoint values) = false) :
  let m := upper (method req) in
  let rejected := (Raise (MethodNotAllowed (elements s)), resp) in
  (fails_with is_MethodNotAllowed (dispatch r req wrapper_args resp).1 = true
   ↔ (m ∉ s) ∧ m ≠ "HEAD") ∧
  ((m ∉ s) ∧ m ≠ "HEAD" →
   Resource_handle_request_with_model r req m model
   = Raise (MethodNotAllowed (elements s)) ∧
   dispatch r req wrapper_args resp = rejected ∧
   handle_request r req wrapper_args resp
   = (error_handler r (MethodNotAllowed (elements s)), resp)) ∧
  (model !! "write" = None → m = "PUT" → dispatch r req wrapper_args resp = rejected) ∧
  (model !! "delete" = None → m = "DELETE" → dispatch r req wrapper_args resp = rejected) ∧
  (m = "HEAD" →
   fails_with is_MethodNotAllowed (dispatch r req wrapper_args resp).1 = false).
Proof.
  intros m rejected.
  assert (Hdispatch : dispatch r req wrapper_args resp
                      = _handle_request_with_model r req m model resp).
  { unfold dispatch. by rewrite Hcompose. }
  assert (Hallowed : m ∈ s ∨ m = "HEAD" →
    fails_with is_MethodNotAllowed (dispatch r req wrapper_args resp).1 = false).
  { intros Hm. rewrite Hdispatch.
    by apply (_handle_request_with_model_allowed r req m model s resp). }
  assert (Hrejected : (m ∉ s) ∧ m ≠ "HEAD" →
    dispatch r req wrapper_args resp = rejected).
  { intros [Hm Hhead]. rewrite Hdispatch.
    by apply _handle_request_with_model_rejects. }
  assert (Hlacks : ∀ cap verb : string,
    model !! cap = None →
    (∀ x, x ∈ s → x = verb → contains model cap = true) →
    verb ≠ "HEAD" → m = verb → (m ∉ s) ∧ m ≠ "HEAD").
  { intros cap verb Hcap Hverb Hne ->. split; [| done].
    intros Hin. apply contains_false in Hcap.
    rewrite (Hverb verb Hin eq_refl) in Hcap. discriminate. }
  supported_members Hsupported Hin.
  split; [| split; [| split; [| split]]].
  - split.
    + intros Hfail. split.
      * intros Hm. rewrite Hallowed in Hfail by (by left). done.
      * intros Hhead. rewrite Hallowed in Hfail by (by right). done.
    + intros Hm. by rewrite Hrejected.
  - intros Hm. split; [| split].
    + destruct Hm as [Hm Hhead]. by apply Resource_handle_request_with_model_rejects.
    + by apply Hrejected.
    + unfold handle_request. by rewrite Hrejected.
  - intros Hwrite HPUT. apply Hrejected.
    apply (Hlacks "write" "PUT"); try done.
    intros x Hx ->. apply Hin in Hx.
    destruct Hx as [? | [[? ?] | [[? ?] | [? ?]]]]; try discriminate. done.
  - intros Hdelete HDELETE. apply Hrejected.
    apply (Hlacks "delete" "DELETE"); try done.
    intros x Hx ->. apply Hin in Hx.
    destruct Hx as [? | [[? ?] | [[? ?] | [? ?]]]]; try discriminate. done.
  - intros Hhead. apply Hallowed. by right.
Qed.

(** C4: whatever exception the dispatch raises, be it from composing the
    model, from the supported-method check or from a capability of the
    model, [handle_request] passes it to the error handler of the resource
    and its outcome is the handler's outcome; a normal result is returned
    as it is.  So an exception leaves [handle_request] only if the error
    handler raised it.  On a resource constructed without an error handler
    a lookup failure comes out as the not-found condition. *)
Theorem handle_request_hands_failures_to_error_handler
    (r : resource) (req : request) (wrapper_args : option (gmap string value))
    (resp : response) :
  (∀ err, compose_model r wrapper_args = Raise err →
     handle_request r req wrapper_args resp = (error_handler r err, resp)) ∧
  (∀ model err resp',
     compose_model r wrapper_args = Return model →
     _handle_request_with_model r req (upper (method req)) model resp
     = (Raise err, resp') →
     handle_request r req wrapper_args resp = (error_handler r err, resp')) ∧
  (∀ model x resp',
     compose_model r wrapper_args = Return model →
     _handle_request_with_model r req (upper (method req)) model resp
     = (Return x, resp') →
     handle_request r req wrapper_args resp = (Return x, resp')) ∧
  (∀ escaped,
     (handle_request r req wrapper_args resp).1 = Raise escaped →
     ∃ err, (dispatch r req wrapper_args resp).1 = Raise err ∧
            error_handler r err = Raise escaped) ∧
  (∀ uuid_name generic_model args coll err,
     arg_error_handler args = None →
     is_LookupError err = true →
     error_handler (Resource_init uuid_name generic_model args coll) err
     = Raise NotFound).
Proof.
  unfold handle_request, dispatch.
  split; [| split; [| split; [| split]]].
  - intros err Hc. by rewrite Hc.
  - intros model err resp' Hc Hd. by rewrite Hc, Hd.
  - intros model x resp' Hc Hd. by rewrite Hc, Hd.
  - intros escaped.
    destruct (match compose_model r wrapper_args with
              | Return model =>
                  _handle_request_with_model r req (upper (method req)) model resp
              | Raise err => (Raise err, resp)
              end) as [[x | err] resp']; simpl; [done |].
    intros Hescaped. by exists err.
  - intros uuid_name generic_model args coll err Hnone Hlookup.
    unfold Resource_init. simpl. rewrite Hnone.
    unfold ErrorHandler_call, ErrorHandler_register. simpl.
    by rewrite Hlookup.
Qed.

(** C5 (as amended): on a lazy resource [compose_model] calls the wrapped
    handler, wraps the dataset it returns in a dataset model and returns
    the composition of the declared model with it.  When composition lets
    its second operand win, every capability of the dataset model is the
    one of the result, and a capability of the declared model is kept only
    where the dataset model has none. *)
Theorem compose_model_lazy_dataset_model_wins
    (r : resource) (wrapper_args : option (gmap string value)) (dataset : value)
    (Hlazy : lazy r = true)
    (Hwrapped : wrapped r (default (fake_args r) wrapper_args) = Return dataset)
    (Hcompose : ∀ (self other : gmap string operation) cap,
       compose self other !! cap
       = match other !! cap with
         | Some op => Some op
         | None => self !! cap
         end) :
  ∃ m,
    compose_model r wrapper_args = Return m ∧
    m = compose (model r) (DataSetDataModel dataset) ∧
    ∀ cap, m !! cap = match DataSetDataModel dataset !! cap with
                      | Some op => Some op
                      | None => model r !! cap
                      end.
Proof.
  exists (compose (model r) (DataSetDataModel dataset)).
  split; [| split; [reflexivity |]].
  - unfold compose_model. rewrite Hlazy, Hwrapped. reflexivity.
  - intros cap. apply Hcompose.
Qed.

End Dispatch.

(** C2 at a PUT (sent in lower case) to a resource whose model can only
    read: the hypotheses hold there and the request is rejected with the
    one supported method. *)
Lemma method_not_allowed_iff_unsupported_witness :
  let model : gmap string operation := {[ "read" := λ _, Return VNone ]} in
  let r := example_resource "items" model in
  let req := {| method := "put"; input := VNone |} in
  @compose_model example_collaborators r (Some ∅) = Return model ∧
  @get_supported_methods example_collaborators r (Some model) = Return {[ "GET" ]} ∧
  (∀ c op xs, model !! c = Some op → fails_with is_MethodNotAllowed (op xs) = false) ∧
  (∀ endpoint values,
     fails_with is_MethodNotAllowed
       (@url_adapter_build example_collaborators endpoint values) = false) ∧
  @dispatch example_collaborators r req (Some ∅) empty_response
  = (Raise (MethodNotAllowed (elements ({[ "GET" ]} : gset string))), empty_response).
Proof.
  intros model r req.
  assert (Hcompose : @compose_model example_collaborators r (Some ∅) = Return model)
    by reflexivity.
  assert (Hs : @get_supported_methods example_collaborators r (Some model)
               = Return {[ "GET" ]}) by reflexivity.
  assert (Hmodel : ∀ c op xs, model !! c = Some op →
                     fails_with is_MethodNotAllowed (op xs) = false).
  { intros c op xs Hc. apply lookup_singleton_Some in Hc as [_ <-]. reflexivity. }
  assert (Hbuild : ∀ endpoint values,
     fails_with is_MethodNotAllowed
       (@url_adapter_build example_collaborators endpoint values) = false)
    by reflexivity.
  split; [exact Hcompose | split; [exact Hs | split; [exact Hmodel |]]].
  split; [exact Hbuild |].
  destruct (@method_not_allowed_iff_unsupported example_collaborators
              r req (Some ∅) model {[ "GET" ]} empty_response
              Hcompose Hs Hmodel Hbuild) as (_ & _ & HPUT & _ & _).
  apply HPUT; reflexivity.
Defined.

(** Composition as the specification words it lets the second operand win. *)
Lemma compose_second_wins_lookup (self other : gmap string operation) (cap : string) :
  compose_second_wins self other !! cap
  = match other !! cap with
    | Some op => Some op
    | None => self !! cap
    end.
Proof.
  unfold compose_second_wins. rewrite lookup_union.
  destruct (other !! cap), (self !! cap); reflexivity.
Qed.

(** C5 on the lazy example resource: the composed model has the [read] of
    the dataset model. *)
Lemma compose_model_lazy_dataset_model_wins_witness :
  lazy example_lazy_resource = true ∧
  wrapped example_lazy_resource (default (fake_args example_lazy_resource) None)
  = Return (VStr "dataset") ∧
  ∃ m,
    @compose_model example_collaborators example_lazy_resource None = Return m ∧
    m = compose_second_wins (model example_lazy_resource)
          (@DataSetDataModel example_collaborators (VStr "dataset")) ∧
    ∀ cap, m !! cap
           = match @DataSetDataModel example_collaborators (VStr "dataset") !! cap with
             | Some op => Some op
             | None => model example_lazy_resource !! cap
             end.
Proof.
  split; [reflexivity | split; [reflexivity |]].
  apply (@compose_model_lazy_dataset_model_wins example_collaborators
           example_lazy_resource None (VStr "dataset")).
  - reflexivity.
  - reflexivity.
  - apply compose_second_wins_lookup.
Defined.

(** C5, the claim as worded fails: with a composition that lets its second
    operand win, the [read] of the model composed for the lazy example
    resource is the one of the dataset model, not the declared one. *)
Lemma compose_model_lazy_declared_read_overridden :
  ∃ (m : gmap string operation) (declared_read read : operation),
    lazy example_lazy_resource = true ∧
    model example_lazy_resource !! "read" = Some declared_read ∧
    declared_read [] = Return (VStr "declared") ∧
    @compose_model example_collaborators example_lazy_resource (Some ∅) = Return m ∧
    m !! "read" = Some read ∧
    read [] = Return (VStr "dataset").
Proof.
  exists (compose_second_wins (model example_lazy_resource)
            (@DataSetDataModel example_collaborators (VStr "dataset"))),
    (λ _, Return (VStr "declared")), (λ _, Return (VStr "dataset")).
  split; [reflexivity |].
  split; [apply lookup_singleton_eq |].
  split; [reflexivity |].
  split; [reflexivity |].
  split; [| reflexivity].
  simpl. rewrite compose_second_wins_lookup. rewrite lookup_singleton_eq. reflexivity.
Qed.

(** ** Creation through a Collection *)

Section Creation.
Context `{Collaborators}.

(** A field of the made mapping reaches the URL arguments under the name
    the binding gives it, as long as no two fields are bound to one name. *)
Lemma bound_args_lookup
    (bind_args : gmap string string) (items : list (string * value))
    (k : string) (x : value) :
  NoDup ((λ kv, default kv.1 (bind_args !! kv.1)) <$> items) →
  (k, x) ∈ items →
  bound_args bind_args items !! default k (bind_args !! k) = Some x.
Proof.
  unfold bound_args. generalize (∅ : gmap string value) as acc.
  induction items as [| [k' x'] items IH]; intros acc Hnodup Hin.
  - by apply elem_of_nil in Hin.
  - apply NoDup_cons in Hnodup as [Hfresh Hnodup]. simpl.
    apply elem_of_cons in Hin as [Heq | Hin].
    + injection Heq as <- <-.
      assert (Hkeep : ∀ (rest : list (string * value)) (acc' : gmap string value),
        default k (bind_args !! k) ∉ (λ kv, default kv.1 (bind_args !! kv.1)) <$> rest →
        foldl (λ args kv, <[default kv.1 (bind_args !! kv.1) := kv.2]> args) acc' rest
          !! default k (bind_args !! k)
        = acc' !! default k (bind_args !! k)).
      { induction rest as [| [k2 x2] rest IHrest]; intros acc' Hnot; [done |].
        simpl in *. apply not_elem_of_cons in Hnot as [Hne Hnot].
        rewrite IHrest by done. by rewrite lookup_insert_ne. }
      rewrite Hkeep by done. apply lookup_insert_eq.
    + by apply IH.
Qed.

(** Each URL argument is the value of the last field of the made mapping
    that the binding gives its name to. *)
Lemma bound_args_last
    (bind_args : gmap string string) (items : list (string * value)) (arg : string) :
  bound_args bind_args items !! arg
  = snd <$> last (filter (λ kv, default kv.1 (bind_args !! kv.1) = arg) items).
Proof.
  unfold bound_args.
  induction items as [| kv items IH] using rev_ind; [done |].
  rewrite foldl_app, filter_app. cbn [foldl].
  rewrite filter_cons, filter_nil.
  destruct (decide (default kv.1 (bind_args !! kv.1) = arg)) as [<- | Hne].
  - by rewrite lookup_insert_eq, last_snoc.
  - by rewrite lookup_insert_ne, app_nil_r.
Qed.

(** C10: a POST to a Collection whose composed model has [make] calls
    [make] on the request input.  When that returns, the value is the
    result of the request and the response status is 201 unless one was
    set before.  When the value is a mapping, the URL of the child is
    built from arguments that are its fields under the names the binding
    gives them, each argument being the value of the last field so named;
    the URL becomes the Location header unless one is set already; a URL
    build error leaves the headers as they were and the request still
    returns the made value. *)
Theorem collection_post_makes_child
    (r child : resource) (bind_args : gmap string string) (req : request)
    (wrapper_args : option (gmap string value)) (model : gmap string operation)
    (make : operation) (resp : response)
    (Hcollects : collects r = Some (child, bind_args))
    (Hcompose : compose_model r wrapper_args = Return model)
    (Hmethod : upper (method req) = "POST")
    (Hmake : model !! "make" = Some make) :
  let created :=
    {| status := Some (default 201%Z (status resp)); headers := headers resp |} in
  match make [input req] with
  | Raise e => handle_request r req wrapper_args resp = (error_handler r e, resp)
  | Return ret_data =>
      match ret_data with
      | VMap items =>
          ∃ args : gmap string value,
            (∀ arg, args !! arg
               = snd <$> last (filter (λ kv, default kv.1 (bind_args !! kv.1) = arg) items)) ∧
            match url_adapter_build (name child) args with
            | Return url =>
                handle_request r req wrapper_args resp
                = (Return ret_data,
                   {| status := Some (default 201%Z (status resp));
                      headers :=
                        match headers resp !! "Location" with
                        | Some _ => headers resp
                        | None => <["Location" := url]> (headers resp)
                        end |})
            | Raise URLBuildError =>
                handle_request r req wrapper_args resp = (Return ret_data, created)
            | Raise e =>
                handle_request r req wrapper_args resp = (error_handler r e, created)
            end
      | _ => handle_request r req wrapper_args resp = (Return ret_data, created)
      end
  end.
Proof.
  intros created.
  unfold handle_request, dispatch. rewrite Hcompose, Hmethod.
  unfold _handle_request_with_model, is_Collection. rewrite Hcollects.
  unfold Collection_handle_request_with_model.
  assert (Hhas : contains model "make" = true) by (apply contains_true; eauto).
  rewrite Hhas. simpl. unfold getitem. rewrite Hmake. simpl.
  destruct (make [input req]) as [ret_data | e]; [| reflexivity].
  destruct ret_data; try reflexivity.
  rewrite Hcollects. exists (bound_args bind_args items).
  split; [apply bound_args_last |].
  destruct (url_adapter_build _ _) as [url | e]; [reflexivity |].
  destruct e; reflexivity.
Qed.

End Creation.

(** C10 on the example collection, which binds the field [id] of what it
    makes to the URL argument [item_id].  When the URL adapter resolves
    the child from that argument, the made mapping is returned with status
    201 and the URL in the Location header; when no URL resolves, it is
    returned with status 201 and without the header. *)
Lemma collection_post_makes_child_witness :
  let req := {| method := "post"; input := VMap [("name", VStr "a")] |} in
  collects example_making_collection
  = Some (example_resource "item" ∅, {[ "id" := "item_id" ]}) ∧
  upper (method req) = "POST" ∧
  @handle_request binding_collaborators example_making_collection req (Some ∅)
    empty_response
  = (Return (VMap [("id", VInt 7)]),
     {| status := Some 201%Z; headers := {[ "Location" := "/item/7" ]} |}) ∧
  @handle_request example_collaborators example_making_collection req (Some ∅)
    empty_response
  = (Return (VMap [("id", VInt 7)]), {| status := Some 201%Z; headers := ∅ |}).
Proof.
  intros req.
  split; [reflexivity | split; [reflexivity |]].
  assert (Hcompose : ∀ collaborators : Collaborators,
    @compose collaborators = compose_second_wins →
    @compose_model collaborators example_making_collection (Some ∅)
    = Return (compose_second_wins (model example_making_collection)
                {[ "read" := λ args, match args with
                                     | [] => wrapped example_making_collection ∅
                                     | _ => Raise TypeError
                                     end ]})).
  { intros collaborators Hcomposition.
    unfold compose_model. simpl. by rewrite Hcomposition. }
  split.
  - destruct (@collection_post_makes_child binding_collaborators
      example_making_collection (example_resource "item" ∅) {[ "id" := "item_id" ]}
      req (Some ∅) _ (λ _, Return (VMap [("id", VInt 7)])) empty_response
      eq_refl (Hcompose binding_collaborators eq_refl) eq_refl eq_refl)
      as (args & Hargs & Hpost).
    cbn [url_adapter_build binding_collaborators] in Hpost.
    rewrite (Hargs "item_id") in Hpost. exact Hpost.
  - destruct (@collection_post_makes_child example_collaborators
      example_making_collection (example_resource "item" ∅) {[ "id" := "item_id" ]}
      req (Some ∅) _ (λ _, Return (VMap [("id", VInt 7)])) empty_response
      eq_refl (Hcompose example_collaborators eq_refl) eq_refl eq_refl)
      as (args & _ & Hpost).
    exact Hpost.
Defined.

(** The same request when the URL adapter resolves the child: the Location
    header holds the URL that was built. *)
Example collection_post_sets_location :
  @handle_request resolving_collaborators example_making_collection
    {| method := "POST"; input := VNone |} (Some ∅) empty_response
  = (Return (VMap [("id", VInt 7)]),
     {| status := Some 201%Z; headers := {[ "Location" := "/item" ]} |}).
Proof. reflexivity. Qed.

(** ** Insertion-ordered dictionaries *)

Section Odict.
Context {V : Type}.
Implicit Types (d other : odict V) (k : string) (x : V).

Lemma od_get_set k x d k' :
  od_get (od_set k x d) k' = if String.eqb k k' then Some x else od_get d k'.
Proof.
  induction d as [| [k0 x0] d IH]; simpl.
  - done.
  - destruct (String.eqb_spec k0 k) as [-> | Hne]; simpl.
    + by destruct (String.eqb k k').
    + rewrite IH.
      destruct (String.eqb_spec k0 k') as [-> | Hne']; [| done].
      by rewrite (proj2 (String.eqb_neq k k')).
Qed.

Lemma od_contains_elem_of d k : od_contains d k = true ↔ k ∈ od_keys d.
Proof.
  unfold od_contains, od_keys.
  induction d as [| [k0 x0] d IH]; simpl.
  - split; [done | by intros ?%elem_of_nil].
  - rewrite elem_of_cons.
    destruct (String.eqb_spec k0 k) as [-> | Hne]; [naive_solver |].
    rewrite IH. naive_solver.
Qed.

Lemma od_contains_false d k : od_contains d k = false ↔ k ∉ od_keys d.
Proof.
  rewrite <- od_contains_elem_of. by destruct (od_contains d k).
Qed.

Lemma od_get_None d k : od_get d k = None ↔ k ∉ od_keys d.
Proof.
  rewrite <- od_contains_false. unfold od_contains.
  by destruct (od_get d k).
Qed.

Lemma od_get_elem_of d k x : od_get d k = Some x → (k, x) ∈ d.
Proof.
  induction d as [| [k0 x0] d IH]; simpl; [done |].
  destruct (String.eqb_spec k0 k) as [-> | Hne].
  - intros [= ->]. by left.
  - intros Hget. right. by apply IH.
Qed.

Lemma od_get_NoDup d k x : NoDup (od_keys d) → (k, x) ∈ d → od_get d k = Some x.
Proof.
  unfold od_keys.
  induction d as [| [k0 x0] d IH]; simpl; intros Hnd Hin.
  - by apply elem_of_nil in Hin.
  - apply NoDup_cons in Hnd as [Hfresh Hnd].
    apply elem_of_cons in Hin as [[= <- <-] | Hin].
    + by rewrite String.eqb_refl.
    + destruct (String.eqb_spec k0 k) as [-> | Hne]; [| by apply IH].
      exfalso. apply Hfresh. apply list_elem_of_fmap. by exists (k, x).
Qed.

Lemma od_keys_set k x d :
  od_keys (od_set k x d)
  = if od_contains d k then od_keys d else (od_keys d ++ [k])%list.
Proof.
  unfold od_contains, od_keys.
  induction d as [| [k0 x0] d IH]; simpl; [done |].
  destruct (String.eqb_spec k0 k) as [-> | Hne]; [done |].
  rewrite fmap_cons, IH. by destruct (od_get d k).
Qed.

Lemma NoDup_od_set k x d : NoDup (od_keys d) → NoDup (od_keys (od_set k x d)).
Proof.
  intros Hnd. rewrite od_keys_set.
  destruct (od_contains d k) eqn:Hk; [done |].
  apply NoDup_app. split; [done |]. split; [| apply NoDup_singleton].
  intros k' Hin ->%list_elem_of_singleton.
  by apply od_contains_false in Hk.
Qed.

Lemma NoDup_od_update d other :
  NoDup (od_keys d) → NoDup (od_keys (od_update d other)).
Proof.
  unfold od_update. revert d.
  induction other as [| [k x] other IH]; intros d Hnd; simpl; [done |].
  apply IH. by apply NoDup_od_set.
Qed.

(** An update overrides: the entry of [other] when it has one, else the
    entry that was there. *)
Lemma od_get_update d other k :
  NoDup (od_keys other) →
  od_get (od_update d other) k
  = match od_get other k with
    | Some x => Some x
    | None => od_get d k
    end.
Proof.
  unfold od_update, od_keys. revert d.
  induction other as [| [k0 x0] other IH]; intros d Hnd; simpl; [done |].
  apply NoDup_cons in Hnd as [Hfresh Hnd].
  rewrite IH by done. rewrite od_get_set.
  destruct (String.eqb_spec k0 k) as [-> | Hne]; [| done].
  by rewrite (proj2 (od_get_None other k)).
Qed.

Lemma od_update_nil_NoDup other : NoDup (od_keys (od_update ([] : odict V) other)).
Proof. apply NoDup_od_update. constructor. Qed.

End Odict.

(** ** Registration *)

Example converter_grammar :
  _converter_re_fullmatch "int" = Some ("int", None) ∧
  _converter_re_fullmatch "int(min=1,max=5)" = Some ("int", Some "min=1,max=5") ∧
  _converter_re_fullmatch "any(bar,baz)" = Some ("any", Some "bar,baz") ∧
  _converter_re_fullmatch "uuid()" = Some ("uuid", Some "") ∧
  _converter_re_fullmatch "1st(x)" = None ∧
  _converter_re_fullmatch "int(min=1" = None ∧
  _converter_re_fullmatch "" = None.
Proof. repeat split; reflexivity. Qed.

Example conv_field_asterisks :
  conv_field "*id" = ("id", true) ∧
  conv_field "name" = ("name", false) ∧
  conv_field "**x" = ("*x", false) ∧
  conv_field "***x" = ("*x", true).
Proof. repeat split; reflexivity. Qed.

Lemma Validator_init_wf (b : bool) : validator_wf (Validator_init b).
Proof. intros key table Hlookup. simpl in Hlookup. by rewrite lookup_empty in Hlookup. Qed.

Lemma validator_wf_table (v : validator) (key : option string) :
  validator_wf v → NoDup (od_keys (default [] (validation_specs v !! key))).
Proof.
  intros Hwf. destruct (validation_specs v !! key) as [table |] eqn:Hkey; simpl.
  - by eapply Hwf.
  - constructor.
Qed.

Lemma __register_spec_wf
    (v v' : validator) (key : option string) (spec : odict raw_spec) :
  validator_wf v → __register_spec v key spec = Return v' → validator_wf v'.
Proof.
  intros Hwf. unfold __register_spec.
  destruct (normalize_items spec) as [spec' |]; simpl; [| done].
  intros [= <-] key' table. simpl.
  destruct (decide (key = key')) as [<- | Hne].
  - rewrite lookup_insert_eq. intros [= <-].
    apply NoDup_od_update. by apply validator_wf_table.
  - rewrite lookup_insert_ne by done. apply Hwf.
Qed.

Lemma restrict_wf (v : validator) (r : resource) (fields : list string) (strip : bool) :
  validator_wf v → validator_wf (restrict v r fields strip).
Proof. intros Hwf key table. simpl. apply Hwf. Qed.

(** The loop of [__register_spec] raises only on the value [False] itself. *)
Lemma normalize_items_no_False (spec : odict raw_spec) :
  Forall (λ fs, is_False fs.2 = false) spec →
  normalize_items spec = Return (prod_map id validate_item_spec <$> spec).
Proof.
  induction 1 as [| [field raw] spec Hraw _ IH]; simpl in *; [done |].
  by rewrite Hraw, IH.
Qed.

(** A converter that [validate_item_spec] finds malformed, other than the
    value [False] itself, is registered as [False]. *)
Lemma __register_spec_malformed
    (v : validator) (key : option string) (field : string) (raw : raw_spec) :
  validate_item_spec raw = SFalse →
  is_False raw = false →
  ∃ v' table,
    __register_spec v key [(field, raw)] = Return v' ∧
    validation_specs v' !! key = Some table ∧
    od_get table field = Some SFalse.
Proof.
  intros Hmalformed Hnot_False.
  unfold __register_spec. simpl. rewrite Hnot_False. simpl.
  eexists _, _. split; [reflexivity |]. simpl.
  split; [apply lookup_insert_eq |].
  unfold od_update. simpl. rewrite od_get_set, String.eqb_refl.
  by rewrite Hmalformed.
Qed.

(** C3, what the code does on a malformed converter: a number, an empty
    list, a list of two converters and a text that is no converter name are
    each found malformed by [validate_item_spec] and yet accepted by
    [__register_spec], the function behind [enforce] and [enforce_all]; no
    failure is raised, and the value [False] is what the validation table
    then holds for the field. *)
Theorem register_spec_keeps_malformed
    (v : validator) (key : option string) (field : string)
    (z : Z) (a b : raw_spec) :
  Forall
    (λ raw,
       validate_item_spec raw = SFalse ∧
       ∃ v' table,
         __register_spec v key [(field, raw)] = Return v' ∧
         validation_specs v' !! key = Some table ∧
         od_get table field = Some SFalse)
    [RawInt z; RawList []; RawList [a; b]; RawStr "1st(x)"].
Proof.
  repeat constructor; by apply __register_spec_malformed.
Qed.

(** Only the value [False] makes the registration raise. *)
Example register_spec_raises_on_False (v : validator) (key : option string) :
  __register_spec v key [("x", RawBool false)] = Raise InvalidSpecificationError.
Proof. reflexivity. Qed.

(** ** Precedence of the spec tables *)

(** An update from a table of the validator overrides field by field. *)
Lemma od_get_update_table
    (v : validator) (key : option string) (spec : odict stored_spec) (field : string) :
  validator_wf v →
  od_get (od_update spec (default [] (validation_specs v !! key))) field
  = match od_get (default [] (validation_specs v !! key)) field with
    | Some s => Some s
    | None => od_get spec field
    end.
Proof. intros Hwf. apply od_get_update. by apply validator_wf_table. Qed.


(** The precedence example with any three converters: registered globally,
    for the collected resource and for the collection, the field resolves
    to the converter of the collection. *)
Lemma merged_spec_resource_spec_wins
    (child : resource) (bind_args : gmap string string) (collection : resource)
    (int float str : value → outcome value) (v1 v2 v3 : validator) :
  collects collection = Some (child, bind_args) →
  enforce_all (Validator_init true) [("x", RawCallable int)] = Return v1 →
  enforce v1 child [("x", RawCallable float)] = Return v2 →
  enforce v2 collection [("x", RawCallable str)] = Return v3 →
  od_get (merged_spec v3 collection) "x" = Some (SCallable str).
Proof.
  intros Hcollects H1 H2 H3.
  assert (Hwf : validator_wf v3).
  { eapply __register_spec_wf; [| exact H3].
    eapply __register_spec_wf; [| exact H2].
    eapply __register_spec_wf; [| exact H1].
    apply Validator_init_wf. }
  unfold merged_spec. rewrite od_get_update_table by done.
  unfold enforce, __register_spec in H3. simpl in H3. injection H3 as <-. simpl.
  rewrite lookup_insert_eq. simpl.
  unfold od_update at 1. simpl. by rewrite od_get_set, String.eqb_refl.
Qed.



(** ** Restrictions *)

Lemma filter_ext_elem_of {A} (P Q : A → Prop)
    `{!∀ x, Decision (P x)} `{!∀ x, Decision (Q x)} (l : list A) :
  (∀ x, x ∈ l → P x ↔ Q x) → filter P l = filter Q l.
Proof.
  induction l as [| a l IH]; intros Hext; [done |].
  rewrite !filter_cons.
  rewrite IH by (intros x Hx; apply Hext; by right).
  pose proof (Hext a ltac:(by left)) as Ha.
  destruct (decide (P a)), (decide (Q a)); naive_solver.
Qed.

Section Restrictions.
Context {V : Type} (p : string → bool).
Implicit Types (d : odict V) (k : string).

(** Keeping the pairs whose key passes [p] keeps exactly their entries. *)
Lemma od_get_filter_key d k :
  od_get (filter (λ kv, p kv.1 = true) d) k = if p k then od_get d k else None.
Proof.
  induction d as [| [k0 x0] d IH].
  - simpl. by destruct (p k).
  - rewrite filter_cons.
    destruct (decide (p (k0, x0).1 = true)) as [Hk0 | Hk0]; simpl in *.
    + destruct (String.eqb_spec k0 k) as [-> | Hne]; [by rewrite Hk0 | done].
    + destruct (String.eqb_spec k0 k) as [-> | Hne]; [| done].
      rewrite IH. by destruct (p k).
Qed.

Lemma filter_key_no_extras d :
  filter (λ field, p field = false) (od_keys d) = [] →
  filter (λ kv, p kv.1 = true) d = d.
Proof.
  unfold od_keys.
  induction d as [| [k x] d IH]; [done |].
  rewrite fmap_cons, !filter_cons. simpl.
  destruct (decide (p k = false)) as [Hk | Hk]; [done |].
  intros Hnil. rewrite decide_True by (by destruct (p k)).
  by rewrite IH.
Qed.

Lemma od_keys_filter_key d :
  od_keys (filter (λ kv, p kv.1 = true) d) = filter (λ f, p f = true) (od_keys d).
Proof.
  unfold od_keys. induction d as [| [k x] d IH]; [done |].
  rewrite fmap_cons, !filter_cons. cbn [fst].
  destruct (decide (p k = true)); rewrite ?fmap_cons, IH; done.
Qed.

End Restrictions.

(** The extras among the keys of a dictionary: a key is a string, which
    can be hashed. *)
Lemma extra_fields_keys (restrictions : odict bool) (ks : list string) :
  extra_fields restrictions (VStr <$> ks)
  = Return (VStr <$> filter (λ field, od_contains restrictions field = false) ks).
Proof.
  induction ks as [| k ks IH]; [done |].
  rewrite fmap_cons, filter_cons. cbn [extra_fields]. rewrite IH.
  unfold in_restrictions. cbn [hashable mbind outcome_bind].
  destruct (od_contains restrictions k).
  - by rewrite decide_False.
  - by rewrite decide_True.
Qed.

(** Under an empty allow-list every item is an extra, provided it can be
    hashed. *)
Lemma extra_fields_nil (fields : list value) :
  extra_fields [] fields
  = if forallb hashable fields then Return fields else Raise TypeError.
Proof.
  induction fields as [| field fields IH]; [done |].
  cbn [extra_fields forallb]. unfold in_restrictions.
  destruct (hashable field) eqn:Hfield; simpl; [| done].
  rewrite IH. destruct (forallb hashable fields); simpl; [| done].
  by destruct field.
Qed.

Lemma bool_decide_fmap_nil {A B} (f : A → B) (l : list A) :
  bool_decide (f <$> l ≠ []) = bool_decide (l ≠ []).
Proof. apply bool_decide_ext. by destruct l. Qed.

Lemma od_contains_of_elem_of {V} (d : odict V) (k : string) (x : V) :
  (k, x) ∈ d → od_contains d k = true.
Proof.
  intros Hin. apply od_contains_elem_of. apply list_elem_of_fmap. by exists (k, x).
Qed.

(** The wrappers of the two kinds of dictionary, [CMap] and [CMulti] with
    its list fields, behave alike on their keys. *)
Section Keyed.
Context {V : Type} (mk : odict V → container).
Hypothesis mk_inj : ∀ c c', mk c = mk c' → c = c'.
Hypothesis mk_iter : ∀ c, c_iter (mk c) = VStr <$> od_keys c.
Hypothesis mk_contains : ∀ c field, c_contains (mk c) field = od_contains c field.
Hypothesis mk_delitem :
  ∀ c k, c_delitem (mk c) (VStr k) = c' ← od_del k c; Return (mk c').

Lemma delete_fields_skip (extras : list string) (k : string) (x : V) (d d' : odict V) :
  k ∉ extras →
  delete_fields (VStr <$> extras) (mk d) = Return (mk d') →
  delete_fields (VStr <$> extras) (mk ((k, x) :: d)) = Return (mk ((k, x) :: d')).
Proof.
  revert d. induction extras as [| f extras IH]; intros d Hk.
  - simpl. intros [= Hd%mk_inj]. by subst d'.
  - apply not_elem_of_cons in Hk as [Hne Hk].
    rewrite fmap_cons. cbn [delete_fields]. rewrite !mk_delitem. simpl.
    rewrite (proj2 (String.eqb_neq k f)) by done.
    destruct (od_del f d) as [d1 |]; simpl; [by apply IH | done].
Qed.

(** Deleting, one after the other, the keys that fail [p] leaves the pairs
    whose key passes, in their order. *)
Lemma delete_fields_extras (p : string → bool) (d : odict V) :
  NoDup (od_keys d) →
  delete_fields (VStr <$> filter (λ field, p field = false) (od_keys d)) (mk d)
  = Return (mk (filter (λ kv, p kv.1 = true) d)).
Proof.
  unfold od_keys.
  induction d as [| [k x] d IH]; intros Hnd; [done |].
  apply NoDup_cons in Hnd as [Hfresh Hnd].
  rewrite fmap_cons, !filter_cons. cbn [fst].
  destruct (decide (p k = false)) as [Hk | Hk].
  - rewrite fmap_cons. cbn [delete_fields]. rewrite mk_delitem. simpl.
    rewrite String.eqb_refl. simpl.
    rewrite decide_False by (by rewrite Hk). by apply IH.
  - rewrite decide_True by (by destruct (p k)).
    apply delete_fields_skip; [| by apply IH].
    intros Hin. apply list_elem_of_filter in Hin as [_ Hin]. by apply Hfresh.
Qed.

(** What [__handle_restrictions] does with an allow-list, on a wrapped
    dictionary whose keys are distinct. *)
Lemma __handle_restrictions_allow_list
    (v : validator) (r : resource) (input : odict V)
    (restrictions : odict bool) (strip : bool) :
  active_restrictions v r = (Some restrictions, strip) →
  NoDup (od_keys input) →
  let extras := filter (λ field, od_contains restrictions field = false) (od_keys input) in
  let stripped := filter (λ kv, od_contains restrictions kv.1 = true) input in
  let missing :=
    (filter (λ fr, fr.2 = true ∧ od_contains input fr.1 = false) restrictions).*1 in
  __handle_restrictions v r (mk input)
  = (if bool_decide (extras ≠ []) && negb strip
     then Raise (UnexpectedFields (VStr <$> extras))
     else if bool_decide (missing ≠ []) then Raise (MissingFields missing)
     else Return (mk stripped)).
Proof.
  intros Hactive Hnd extras stripped missing.
  unfold __handle_restrictions. rewrite Hactive, mk_iter, extra_fields_keys.
  fold extras. cbn [mbind outcome_bind]. rewrite bool_decide_fmap_nil.
  assert (Hmissing : ∀ data' : odict V,
    (∀ k, od_contains restrictions k = true → od_contains data' k = od_contains input k) →
    (filter (λ fr, fr.2 = true ∧ c_contains (mk data') fr.1 = false) restrictions).*1
    = missing).
  { intros data' Hsame. unfold missing. f_equal.
    apply filter_ext_elem_of. intros [k b] Hin. simpl.
    rewrite mk_contains, Hsame; [done |]. by eapply od_contains_of_elem_of. }
  destruct (bool_decide (extras ≠ [])) eqn:Hextras; simpl.
  - destruct strip; simpl; [| done].
    unfold extras. rewrite delete_fields_extras by done. simpl. fold stripped.
    rewrite Hmissing; [done |].
    intros k Hk. unfold od_contains, stripped.
    by rewrite od_get_filter_key, Hk.
  - apply bool_decide_eq_false in Hextras. apply dec_stable in Hextras.
    rewrite Hmissing by done.
    unfold stripped. by rewrite filter_key_no_extras.
Qed.

End Keyed.

(** A mapping with distinct keys is wrapped as it is. *)
Lemma od_update_app {V} (acc d : odict V) :
  NoDup (od_keys d) → (∀ k, k ∈ od_keys d → k ∉ od_keys acc) →
  od_update acc d = (acc ++ d)%list.
Proof.
  unfold od_update, od_keys. revert acc.
  induction d as [| [k x] d IH]; intros acc Hnd Hdisj; simpl.
  - by rewrite app_nil_r.
  - apply NoDup_cons in Hnd as [Hfresh Hnd].
    assert (Hset : od_set k x acc = (acc ++ [(k, x)])%list).
    { assert (Hk : k ∉ acc.*1) by (apply Hdisj; by left).
      clear -Hk. induction acc as [| [k0 x0] acc IHacc]; simpl; [done |].
      apply not_elem_of_cons in Hk as [Hne Hk].
      rewrite (proj2 (String.eqb_neq k0 k)) by done. by rewrite IHacc. }
    rewrite Hset, IH; [by rewrite <- app_assoc | done |].
    intros k' Hk'. rewrite fmap_app. simpl. intros Hin.
    apply elem_of_app in Hin as [Hin | Hin%list_elem_of_singleton].
    + by apply (Hdisj k'); [right |].
    + by subst k'.
Qed.

Lemma od_update_nil_id {V} (d : odict V) : NoDup (od_keys d) → od_update [] d = d.
Proof.
  intros Hnd. rewrite od_update_app; [done | done |].
  intros k _ Hin. by apply elem_of_nil in Hin.
Qed.

(** The keys of a wrapped dictionary are distinct, and they are the keys
    of the dictionary. *)
Lemma _ContainerWrapper_NoDup (data : input_data) :
  NoDup (c_keys (_ContainerWrapper data)).
Proof. destruct data; simpl; try apply od_update_nil_NoDup; constructor. Qed.

Lemma _ContainerWrapper_keys (data : input_data) :
  NoDup (keys data) → c_keys (_ContainerWrapper data) = keys data.
Proof. destruct data; simpl; try done; intros Hnd; by rewrite od_update_nil_id. Qed.

Lemma _ContainerWrapper_id (data : odict value) :
  NoDup (od_keys data) → _ContainerWrapper (Mapping data) = CMap data.
Proof. intros Hnd. simpl. by rewrite od_update_nil_id. Qed.

(** C7 (as amended): the input is a dict or a MultiDict and the resource
    has an allow-list of its own.  [validate] enforces the restrictions on
    the wrapped input before any conversion.  The wrapper iterates over
    the keys; the extras are the keys that the allow-list does not name;
    when there are some, they are deleted from the wrapper if the strip
    flag of the resource is set, and else the unexpected-fields failure
    lists all of them.  The missing fields are the required fields of the
    allow-list that the input lacks; when there are some, the
    missing-fields failure lists all of them.  Otherwise the wrapper
    without the extras goes on to conversion. *)
Theorem restrictions_enforced_before_conversion
    (v : validator) (r : resource) (data : input_data) (restrictions : odict bool)
    (Hmapping : is_mapping data = true)
    (Hown : restriction_specs v !! name r = Some restrictions) :
  let strip := default false (strip_extras v !! name r) in
  let input := _ContainerWrapper data in
  let allowed field := od_contains restrictions field in
  let extras := filter (λ field, allowed field = false) (c_keys input) in
  let stripped :=
    match input with
    | CMap c => CMap (filter (λ kv, allowed kv.1 = true) c)
    | CMulti c list_fields => CMulti (filter (λ kv, allowed kv.1 = true) c) list_fields
    | other => other
    end in
  let missing :=
    (filter (λ fr, fr.2 = true ∧ c_contains input fr.1 = false) restrictions).*1 in
  c_iter input = VStr <$> c_keys input ∧
  (NoDup (keys data) → c_keys input = keys data) ∧
  (∀ field, field ∈ extras ↔ c_contains input field = true ∧ allowed field = false) ∧
  (∀ field, field ∈ missing
     ↔ (field, true) ∈ restrictions ∧ c_contains input field = false) ∧
  c_keys stripped = filter (λ field, allowed field = true) (c_keys input) ∧
  (∀ field, allowed field = true →
     c_getitem stripped (KField field) = c_getitem input (KField field) ∧
     c_getlist stripped (KField field) = c_getlist input (KField field)) ∧
  __handle_restrictions v r input
  = (if bool_decide (extras ≠ []) && negb strip
     then Raise (UnexpectedFields (VStr <$> extras))
     else if bool_decide (missing ≠ []) then Raise (MissingFields missing)
     else Return stripped) ∧
  (∀ e, __handle_restrictions v r input = Raise e → validate v r data = Raise e) ∧
  (∀ wrapped, __handle_restrictions v r input = Return wrapped →
     validate v r data
     = '(wrapped', conversion_errs) ← convert_fields (merged_spec v r) wrapped [];
       if bool_decide (conversion_errs ≠ []) then Raise (InvalidFields conversion_errs)
       else unwrap wrapped').
Proof.
  intros strip input allowed extras stripped missing.
  assert (Hactive : active_restrictions v r = (Some restrictions, strip)).
  { unfold active_restrictions. by rewrite Hown. }
  assert (Hkeyed :
    c_iter input = VStr <$> c_keys input ∧
    (∀ field, c_contains input field = true ↔ field ∈ c_keys input) ∧
    c_keys stripped = filter (λ field, allowed field = true) (c_keys input) ∧
    (∀ field, allowed field = true →
       c_getitem stripped (KField field) = c_getitem input (KField field) ∧
       c_getlist stripped (KField field) = c_getlist input (KField field)) ∧
    __handle_restrictions v r input
    = (if bool_decide (extras ≠ []) && negb strip
       then Raise (UnexpectedFields (VStr <$> extras))
       else if bool_decide (missing ≠ []) then Raise (MissingFields missing)
       else Return stripped)).
  { pose proof (_ContainerWrapper_NoDup data) as Hnd.
    subst input extras stripped missing.
    destruct data as [c | c | c | c]; try discriminate Hmapping; simpl in *.
    - split; [done |]. split; [apply od_contains_elem_of |].
      split; [apply od_keys_filter_key |]. split.
      + intros field Hfield. by rewrite od_get_filter_key, Hfield.
      + apply (__handle_restrictions_allow_list (λ c, CMulti c []));
          [by intros ?? [= ->] | done | done | done | done | done].
    - split; [done |]. split; [apply od_contains_elem_of |].
      split; [apply od_keys_filter_key |]. split.
      + intros field Hfield. by rewrite od_get_filter_key, Hfield.
      + apply (__handle_restrictions_allow_list CMap);
          [by intros ?? [= ->] | done | done | done | done | done]. }
  destruct Hkeyed as (Hiter & Hcontains & Hstripped & Hkept & Hhandle).
  split; [exact Hiter |].
  split; [apply _ContainerWrapper_keys |].
  split; [| split; [| split; [| split; [| split; [| split]]]]]; try done.
  - intros field. unfold extras. rewrite list_elem_of_filter, Hcontains. naive_solver.
  - intros field. unfold missing. rewrite list_elem_of_fmap. split.
    + intros ([k b] & -> & Hin). apply list_elem_of_filter in Hin as [[Hb Hk] Hin].
      simpl in *. by subst b.
    + intros [Hin Hk]. exists (field, true). split; [done |].
      by apply list_elem_of_filter.
  - intros e He. unfold validate. fold input. by rewrite He.
  - intros wrapped Hw. unfold validate. fold input. by rewrite Hw.
Qed.

(** C7 on a resource restricted to a required [id] and an optional
    [name].  Without stripping, the extra field of a dict is reported;
    with stripping, the extra field of a MultiDict is deleted and the
    rest is returned. *)
Lemma restrictions_enforced_before_conversion_witness :
  let r := example_resource "users" ∅ in
  let strict := example_restricted_validator r false in
  let stripping := example_restricted_validator r true in
  let data := Mapping [("id", VStr "1"); ("name", VStr "a"); ("extra", VStr "y")] in
  let form := MultiDict [("id", [VStr "1"]); ("extra", [VStr "y"; VStr "z"])] in
  is_mapping data = true ∧
  is_mapping form = true ∧
  restriction_specs strict !! name r = Some [("id", true); ("name", false)] ∧
  restriction_specs stripping !! name r = Some [("id", true); ("name", false)] ∧
  __handle_restrictions strict r (_ContainerWrapper data)
  = Raise (UnexpectedFields [VStr "extra"]) ∧
  validate strict r data = Raise (UnexpectedFields [VStr "extra"]) ∧
  __handle_restrictions stripping r (_ContainerWrapper form)
  = Return (CMulti [("id", [VStr "1"])] []) ∧
  validate stripping r form = Return (MultiDict [("id", [VStr "1"])]).
Proof.
  intros r strict stripping data form.
  assert (Hstrict : restriction_specs strict !! name r
                    = Some [("id", true); ("name", false)]) by reflexivity.
  assert (Hstripping : restriction_specs stripping !! name r
                       = Some [("id", true); ("name", false)]) by reflexivity.
  destruct (restrictions_enforced_before_conversion strict r data _ eq_refl Hstrict)
    as (_ & _ & _ & _ & _ & _ & Hreported & Hbefore & _).
  destruct (restrictions_enforced_before_conversion stripping r form _ eq_refl Hstripping)
    as (_ & _ & _ & _ & _ & _ & Hdeleted & _ & Hafter).
  split; [reflexivity | split; [reflexivity |]].
  split; [exact Hstrict | split; [exact Hstripping |]].
  split; [exact (eq_trans Hreported eq_refl) |].
  split; [apply Hbefore; exact (eq_trans Hreported eq_refl) |].
  split; [exact (eq_trans Hdeleted eq_refl) |].
  exact (eq_trans (Hafter _ (eq_trans Hdeleted eq_refl)) eq_refl).
Defined.

(** C7, the claim as worded fails on an input that is a sequence: the
    wrapper iterates over the items and deletes by position.  Under
    [restrict("name", strip_extra=True)] the one extra of the list
    [["name", 0]] is the number, and deleting it deletes the item at
    position 0, which is the allowed one: validation returns the list
    with the extra in it.  An extra that is a string is no position, and
    deleting it raises [TypeError]. *)
Lemma restrictions_delete_by_position_in_a_sequence :
  let r := example_resource "users" ∅ in
  let v := restrict (Validator_init true) r ["name"] true in
  restriction_specs v !! name r = Some [("name", false)] ∧
  strip_extras v !! name r = Some true ∧
  extra_fields [("name", false)] (c_iter (_ContainerWrapper (Sequence [VStr "name"; VInt 0])))
  = Return [VInt 0] ∧
  validate v r (Sequence [VStr "name"; VInt 0]) = Return (Sequence [VInt 0]) ∧
  validate v r (Sequence [VStr "name"; VStr "extra"]) = Raise TypeError.
Proof. repeat split; reflexivity. Qed.

(** ** The restriction example *)

Lemma active_restrictions_restrict
    (v : validator) (r : resource) (fields : list string) (strip : bool) :
  active_restrictions (restrict v r fields strip) r
  = (Some (od_update (default [] (restriction_specs v !! name r)) (conv_field <$> fields)),
     strip).
Proof.
  unfold active_restrictions, restrict, restrict_to. simpl.
  by rewrite !lookup_insert_eq.
Qed.

Lemma merged_spec_no_specs (v : validator) (r : resource) :
  validation_specs v = ∅ → merged_spec v r = [].
Proof.
  intros Hempty. unfold merged_spec. rewrite Hempty, !lookup_empty. simpl.
  by destruct (include_collections v), (collects r) as [[child bind_args] |].
Qed.

(** Without any converter registered, validation is the enforcement of the
    restrictions. *)
Lemma validate_no_specs (v : validator) (r : resource) (data : input_data) :
  validation_specs v = ∅ →
  validate v r data
  = wrapped ← __handle_restrictions v r (_ContainerWrapper data); unwrap wrapped.
Proof.
  intros Hempty. unfold validate. rewrite merged_spec_no_specs by done.
  by destruct (__handle_restrictions v r (_ContainerWrapper data)).
Qed.

(** C8 (as amended): after [restrict("*id", "name", strip_extra=False)] for
    a resource, the input [{"id": "1", "extra": "y"}] raises the
    unexpected-fields failure for [extra], the extras being checked first
    and [name], which bears no asterisk, being optional; the input
    [{"id": "1", "name": "a", "extra": "y"}] raises the same failure; with
    [strip_extra=True] that input validates and the output omits [extra]. *)
Theorem restrict_example (r : resource) :
  let strict := example_restricted_validator r false in
  let stripping := example_restricted_validator r true in
  conv_field "*id" = ("id", true) ∧
  conv_field "name" = ("name", false) ∧
  validate strict r (Mapping [("id", VStr "1"); ("extra", VStr "y")])
  = Raise (UnexpectedFields [VStr "extra"]) ∧
  validate strict r (Mapping [("id", VStr "1"); ("name", VStr "a"); ("extra", VStr "y")])
  = Raise (UnexpectedFields [VStr "extra"]) ∧
  validate stripping r (Mapping [("id", VStr "1"); ("name", VStr "a"); ("extra", VStr "y")])
  = Return (Mapping [("id", VStr "1"); ("name", VStr "a")]).
Proof.
  intros strict stripping.
  split; [reflexivity | split; [reflexivity |]].
  unfold strict, stripping, example_restricted_validator.
  rewrite !validate_no_specs by reflexivity.
  unfold __handle_restrictions. rewrite !active_restrictions_restrict.
  repeat split; reflexivity.
Qed.

(** C8, the claim as worded fails: on the input that lacks [name] and has
    the extra field, the failure raised is the unexpected-fields one, not a
    missing-fields one. *)
Lemma restrict_example_not_missing_fields :
  let r := example_resource "users" ∅ in
  let outcome_of_validate :=
    validate (example_restricted_validator r false) r
      (Mapping [("id", VStr "1"); ("extra", VStr "y")]) in
  outcome_of_validate = Raise (UnexpectedFields [VStr "extra"]) ∧
  fails_with is_MissingFields outcome_of_validate = false.
Proof. split; reflexivity. Qed.

(** ** Conversion *)

(** A check reads the container only at its key. *)
Lemma __check_item_ext (d1 d2 : container) (k1 k2 : key) (item_spec : stored_spec) :
  c_getitem d1 k1 = c_getitem d2 k2 →
  c_getlist d1 k1 = c_getlist d2 k2 →
  __check_item d1 k1 item_spec = __check_item d2 k2 item_spec.
Proof.
  intros Hitem Hlist. destruct item_spec; simpl; by rewrite ?Hitem, ?Hlist.
Qed.

Lemma merged_spec_NoDup (v : validator) (r : resource) : NoDup (od_keys (merged_spec v r)).
Proof.
  unfold merged_spec. apply NoDup_od_update.
  destruct (include_collections v), (collects r) as [[child bind_args] |];
    repeat apply NoDup_od_update; constructor.
Qed.

Lemma failing_fields_cons
    (field : string) (s : stored_spec) (spec : odict stored_spec) (w : container) :
  failing_fields ((field, s) :: spec) w
  = if c_contains w field && raises (__check_item w (KField field) s)
    then field :: failing_fields spec w
    else failing_fields spec w.
Proof.
  unfold failing_fields. rewrite filter_cons.
  case_decide as Hd; simpl in *.
  - by destruct Hd as [-> ->].
  - destruct (c_contains w field), (raises _); simpl; try done.
    exfalso. by apply Hd.
Qed.

Lemma od_get_setattr (name : string) (x : value) (o : object) (name' : string) :
  od_get (setattr name x o) name' = if String.eqb name name' then Some x else od_get o name'.
Proof.
  induction o as [| [n y] o IH]; simpl; [done |].
  destruct (String.eqb_spec n name) as [-> | Hne]; simpl.
  - by destruct (String.eqb name name').
  - destruct (String.ltb name n); simpl; [done |].
    rewrite IH. destruct (String.eqb_spec n name') as [<- | Hne']; [| done].
    by rewrite (proj2 (String.eqb_neq name n)).
Qed.

(** What a check does to the wrapper is invisible to the methods that the
    loop of [validate] calls. *)
Lemma checked_same (data : container) (k : key) (item_spec : stored_spec) :
  c_keys (checked data k item_spec) = c_keys data ∧
  (∀ field, c_contains (checked data k item_spec) field = c_contains data field) ∧
  (∀ k', c_getitem (checked data k item_spec) k' = c_getitem data k') ∧
  (∀ k', c_getlist (checked data k item_spec) k' = c_getlist data k').
Proof. by destruct item_spec, data, k. Qed.

(** The assignment of a field that the wrapper holds changes that field
    only. *)
Lemma c_setitem_Return (data data' : container) (field : string) (x : value) :
  c_setitem data field x = Return data' →
  c_contains data field = true →
  c_keys data' = c_keys data ∧
  (∀ field', c_contains data' field' = c_contains data field') ∧
  c_getitem data' (KField field) = Return x ∧
  (∀ field', field' ≠ field →
     c_getitem data' (KField field') = c_getitem data (KField field') ∧
     c_getlist data' (KField field') = c_getlist data (KField field')).
Proof.
  destruct data as [c | c list_fields | c | c]; simpl; [done | | |];
    intros [= <-] Hpresent; simpl.
  - rewrite od_keys_set, Hpresent. split; [done |].
    unfold od_contains in *. setoid_rewrite od_get_set. rewrite String.eqb_refl.
    split; [| split; [done |]].
    + intros field'. destruct (String.eqb_spec field field') as [<- | _]; [| done].
      by destruct (od_get c field).
    + intros field' Hne. by rewrite (proj2 (String.eqb_neq field field')).
  - rewrite od_keys_set, Hpresent. split; [done |].
    unfold od_contains in *. setoid_rewrite od_get_set. rewrite String.eqb_refl.
    split; [| split; [done |]].
    + intros field'. destruct (String.eqb_spec field field') as [<- | _]; [| done].
      by destruct (od_get c field).
    + intros field' Hne. by rewrite (proj2 (String.eqb_neq field field')).
  - split; [done |].
    unfold od_contains in *. setoid_rewrite od_get_setattr. rewrite String.eqb_refl.
    split; [| split; [done |]].
    + intros field'. destruct (String.eqb_spec field field') as [<- | _]; [| done].
      by destruct (od_get c field).
    + intros field' Hne. by rewrite (proj2 (String.eqb_neq field field')).
Qed.

(** A check of a field never returns on a wrapped sequence, where a field
    is no position; on the other wrappers the converted value can be
    assigned. *)
Lemma __check_item_Return_setitem
    (data : container) (field : string) (item_spec : stored_spec) (x : value) :
  __check_item data (KField field) item_spec = Return x →
  ∃ data', c_setitem (checked data (KField field) item_spec) field x = Return data'.
Proof.
  destruct data as [c | c list_fields | c | c].
  - by destruct item_spec.
  - destruct item_spec; simpl; eauto.
  - destruct item_spec; simpl; eauto.
  - destruct item_spec; simpl; eauto.
Qed.

(** The loop of [validate] started on [cur], a wrapper that agrees with
    [w] on the fields still to convert: it runs to the end of [spec], adds
    to the errors the failing fields in order, and leaves in each field the
    converted value where its check returned one. *)
Lemma convert_fields_run (spec : odict stored_spec) (w : container) :
  NoDup (od_keys spec) →
  (∀ field s, (field, s) ∈ spec → c_contains w field = true →
     fails_with is_InvalidSpecificationError
       (__check_item w (KField field) s) = false) →
  ∀ (cur : container) (errs : list string),
    (∀ field, field ∈ od_keys spec →
       c_contains cur field = c_contains w field ∧
       c_getitem cur (KField field) = c_getitem w (KField field) ∧
       c_getlist cur (KField field) = c_getlist w (KField field)) →
    ∃ out,
      convert_fields spec cur errs = Return (out, (errs ++ failing_fields spec w)%list) ∧
      c_keys out = c_keys cur ∧
      (∀ field, c_contains out field = c_contains cur field) ∧
      (∀ field, od_get spec field = None →
         c_getlist out (KField field) = c_getlist cur (KField field)) ∧
      ∀ field,
        c_getitem out (KField field)
        = match od_get spec field with
          | Some s =>
              if c_contains w field then
                match __check_item w (KField field) s with
                | Return converted => Return converted
                | Raise _ => c_getitem cur (KField field)
                end
              else c_getitem cur (KField field)
          | None => c_getitem cur (KField field)
          end.
Proof.
  unfold od_keys at 1 2.
  induction spec as [| [f0 s0] spec IH]; intros Hnd Hvalid cur errs Hagree.
  - exists cur. simpl. rewrite app_nil_r. by repeat split.
  - rewrite fmap_cons in Hnd. apply NoDup_cons in Hnd as [Hfresh Hnd].
    destruct (Hagree f0 ltac:(by left)) as (Hpresent & Hitem0 & Hlist0).
    assert (Hcheck : __check_item cur (KField f0) s0 = __check_item w (KField f0) s0)
      by (by apply __check_item_ext).
    assert (Hrest : od_get spec f0 = None) by (by apply od_get_None).
    assert (Hvalid' : ∀ field s, (field, s) ∈ spec → c_contains w field = true →
      fails_with is_InvalidSpecificationError (__check_item w (KField field) s) = false).
    { intros field s Hin. apply Hvalid. by right. }
    destruct (checked_same cur (KField f0) s0) as (Hkeys1 & Hcontains1 & Hitem1 & Hlist1).
    cbn [convert_fields]. rewrite failing_fields_cons, Hpresent, Hcheck.
    destruct (c_contains w f0) eqn:Hin0; cbn [andb].
    + destruct (__check_item w (KField f0) s0) as [converted | e] eqn:Hc0; cbn [raises].
      * destruct (__check_item_Return_setitem cur f0 s0 converted Hcheck) as [cur' Hset].
        rewrite Hset. cbn [mbind outcome_bind].
        apply c_setitem_Return in Hset as (Hkeys2 & Hcontains2 & Hitem2 & Hframe);
          [| by rewrite Hcontains1, Hpresent].
        destruct (IH Hnd Hvalid' cur' errs) as (out & Hrun & Hkeys & Hcontains & Hlists & Hout).
        { intros field Hfield.
          assert (Hne : field ≠ f0) by (by intros ->).
          destruct (Hframe field Hne) as [-> ->].
          rewrite Hcontains2, Hcontains1, Hitem1, Hlist1. apply Hagree. by right. }
        exists out. split; [exact Hrun |].
        split; [by rewrite Hkeys, Hkeys2 |].
        split; [intros field; by rewrite Hcontains, Hcontains2 |].
        split.
        { intros field. cbn [od_get].
          destruct (String.eqb_spec f0 field) as [<- | Hne]; [done |].
          intros Hnone. rewrite Hlists by done.
          destruct (Hframe field ltac:(done)) as [_ ->]. by rewrite Hlist1. }
        intros field. rewrite Hout. cbn [od_get].
        destruct (String.eqb_spec f0 field) as [<- | Hne].
        -- by rewrite Hrest, Hitem2, Hin0, Hc0.
        -- destruct (Hframe field ltac:(done)) as [-> _]. by rewrite Hitem1.
      * pose proof (Hvalid f0 s0 ltac:(by left) Hin0) as Hnot_invalid.
        rewrite Hc0 in Hnot_invalid. simpl in Hnot_invalid. rewrite Hnot_invalid.
        destruct (IH Hnd Hvalid' (checked cur (KField f0) s0) (errs ++ [f0])%list)
          as (out & Hrun & Hkeys & Hcontains & Hlists & Hout).
        { intros field Hfield. rewrite Hcontains1, Hitem1, Hlist1. apply Hagree. by right. }
        exists out. rewrite <- app_assoc in Hrun. split; [exact Hrun |].
        split; [by rewrite Hkeys |].
        split; [intros field; by rewrite Hcontains |].
        split.
        { intros field. cbn [od_get].
          destruct (String.eqb f0 field); [done |].
          intros Hnone. by rewrite Hlists, Hlist1. }
        intros field. rewrite Hout, Hitem1. cbn [od_get].
        destruct (String.eqb_spec f0 field) as [<- | Hne]; [| done].
        by rewrite Hrest, Hin0, Hc0.
    + destruct (IH Hnd Hvalid' cur errs) as (out & Hrun & Hkeys & Hcontains & Hlists & Hout).
      { intros field Hfield. apply Hagree. by right. }
      exists out. split; [exact Hrun |]. split; [exact Hkeys |].
      split; [exact Hcontains |].
      split.
      { intros field. cbn [od_get].
        destruct (String.eqb f0 field); [done |]. apply Hlists. }
      intros field. rewrite Hout. cbn [od_get].
      destruct (String.eqb_spec f0 field) as [<- | Hne]; [| done].
      by rewrite Hrest, Hin0.
Qed.

Example check_item_list_of_int :
  __check_item (CMap [("ids", VSeq [VStr "3"; VStr "4"; VStr "5"])]) (KField "ids")
    (SList (SCallable int_converter))
  = Return (VSeq [VInt 3; VInt 4; VInt 5]) ∧
  raises (__check_item (CMap [("ids", VSeq [VStr "3"; VStr "x"])]) (KField "ids")
            (SList (SCallable int_converter))) = true.
Proof. split; reflexivity. Qed.

(** C9 (as amended): whatever the input is, once the restrictions have let
    it through and as long as no check raises the invalid-specification
    failure, which [validate] lets through at once, every field of the
    merged spec that the input holds is converted, whether or not earlier
    ones failed, and a field the input lacks is passed over.  The failed
    fields are exactly the fields of the spec present in the input whose
    check raises; when there are some, [validate] raises one
    invalid-fields failure that lists them all, in the order of the spec,
    and when there are none it unwraps the input with each converted
    value in place. *)
Theorem validate_reports_every_failed_field
    (v : validator) (r : resource) (data : input_data) (wrapped : container)
    (Hrestricted : __handle_restrictions v r (_ContainerWrapper data) = Return wrapped)
    (Hspecs : ∀ field s, (field, s) ∈ merged_spec v r →
       c_contains wrapped field = true →
       fails_with is_InvalidSpecificationError
         (__check_item wrapped (KField field) s) = false) :
  let spec := merged_spec v r in
  let failed := failing_fields spec wrapped in
  (∀ field, field ∈ failed
     ↔ ∃ s, od_get spec field = Some s ∧
            c_contains wrapped field = true ∧
            raises (__check_item wrapped (KField field) s) = true) ∧
  (failed ≠ [] → validate v r data = Raise (InvalidFields failed)) ∧
  (failed = [] →
     ∃ out,
       validate v r data = unwrap out ∧
       c_keys out = c_keys wrapped ∧
       (∀ field, c_contains out field = c_contains wrapped field) ∧
       ∀ field,
         c_getitem out (KField field)
         = match od_get spec field with
           | Some s =>
               if c_contains wrapped field then __check_item wrapped (KField field) s
               else c_getitem wrapped (KField field)
           | None => c_getitem wrapped (KField field)
           end).
Proof.
  intros spec failed.
  pose proof (merged_spec_NoDup v r) as Hnd. fold spec in Hnd.
  destruct (convert_fields_run spec wrapped Hnd Hspecs wrapped [] ltac:(done))
    as (out & Hrun & Hkeys & Hcontains & _ & Hout).
  simpl in Hrun. fold failed in Hrun.
  assert (Hvalidate : validate v r data
    = if bool_decide (failed ≠ []) then Raise (InvalidFields failed) else unwrap out).
  { unfold validate. rewrite Hrestricted. simpl. fold spec. by rewrite Hrun. }
  assert (Hfailed : ∀ field, field ∈ failed
     ↔ ∃ s, od_get spec field = Some s ∧
            c_contains wrapped field = true ∧
            raises (__check_item wrapped (KField field) s) = true).
  { intros field. unfold failed, failing_fields. rewrite list_elem_of_fmap. split.
    - intros ([f s] & -> & Hin). apply list_elem_of_filter in Hin as [[Hpresent Hraises] Hin].
      exists s. split; [| done]. by apply od_get_NoDup.
    - intros (s & Hget & Hpresent & Hraises). exists (field, s). split; [done |].
      apply list_elem_of_filter. split; [done |]. by apply od_get_elem_of. }
  split; [exact Hfailed | split].
  - intros Hsome. by rewrite Hvalidate, bool_decide_eq_true_2.
  - intros Hnone. exists out.
    split; [rewrite Hvalidate, bool_decide_eq_false_2; [done | by intros Hne] |].
    split; [exact Hkeys | split; [exact Hcontains |]].
    intros field. rewrite Hout.
    destruct (od_get spec field) as [s |] eqn:Hs; [| done].
    destruct (c_contains wrapped field) eqn:Hpresent; [| done].
    destruct (__check_item wrapped (KField field) s) as [converted | e] eqn:Hc; [done |].
    assert (Hin : field ∈ failed).
    { apply Hfailed. exists s. by rewrite Hc. }
    rewrite Hnone in Hin. by apply elem_of_nil in Hin.
Qed.

(** C9 on three fields checked by an integer converter, two of which hold
    no number: the failure names both, in the order of the spec. *)
Lemma validate_reports_every_failed_field_witness :
  let r := example_resource "numbers" ∅ in
  let v := example_enforcing_validator r in
  let data := [("a", VStr "x"); ("b", VStr "y"); ("c", VStr "12")] in
  __handle_restrictions v r (_ContainerWrapper (Mapping data)) = Return (CMap data) ∧
  (∀ field s, (field, s) ∈ merged_spec v r →
     c_contains (CMap data) field = true →
     fails_with is_InvalidSpecificationError
       (__check_item (CMap data) (KField field) s) = false) ∧
  failing_fields (merged_spec v r) (CMap data) = ["a"; "b"] ∧
  validate v r (Mapping data) = Raise (InvalidFields ["a"; "b"]).
Proof.
  intros r v data.
  assert (Hrestricted :
    __handle_restrictions v r (_ContainerWrapper (Mapping data)) = Return (CMap data))
    by reflexivity.
  assert (Hspecs : ∀ field s, (field, s) ∈ merged_spec v r →
     c_contains (CMap data) field = true →
     fails_with is_InvalidSpecificationError
       (__check_item (CMap data) (KField field) s) = false).
  { intros field s Hin _.
    assert (Hmerged : merged_spec v r
      = [("a", SCallable int_converter); ("b", SCallable int_converter);
         ("c", SCallable int_converter)]) by reflexivity.
    rewrite Hmerged in Hin.
    repeat (apply elem_of_cons in Hin as [[= -> ->] | Hin]; [reflexivity |]).
    by apply elem_of_nil in Hin. }
  split; [exact Hrestricted | split; [exact Hspecs |]].
  split; [reflexivity |].
  destruct (validate_reports_every_failed_field v r (Mapping data) (CMap data)
              Hrestricted Hspecs) as (_ & Hraised & _).
  apply Hraised. discriminate.
Defined.

(** C9, the claim as worded fails: after [enforce(resource, a=int, b=5)]
    the table holds a malformed spec for [b].  On the input
    [{"a": "x", "b": "1"}] the conversion of [a] fails, and yet no
    invalid-fields failure names it: the check of [b] raises the
    invalid-specification failure, which leaves [validate] at once. *)
Lemma validate_malformed_spec_hides_failed_field :
  let r := example_resource "numbers" ∅ in
  let data := [("a", VStr "x"); ("b", VStr "1")] in
  ∃ v,
    enforce (Validator_init true) r [("a", RawCallable int_converter); ("b", RawInt 5)]
    = Return v ∧
    merged_spec v r = [("a", SCallable int_converter); ("b", SFalse)] ∧
    __handle_restrictions v r (_ContainerWrapper (Mapping data)) = Return (CMap data) ∧
    __check_item (CMap data) (KField "a") (SCallable int_converter) = Raise ValueError ∧
    validate v r (Mapping data) = Raise InvalidSpecificationError.
Proof. eexists. repeat split; reflexivity. Qed.

(** ** Examples of dispatch *)

(** A GET whose [read] raises a lookup failure, on a resource built without
    an error handler: the outcome is the not-found condition. *)
Example handle_request_lookup_failure :
  @handle_request example_collaborators
    (example_resource "items" {[ "read" := λ _, Raise (KeyError "7") ]})
    {| method := "get"; input := VNone |} (Some ∅) empty_response
  = (Raise NotFound, empty_response).
Proof. reflexivity. Qed.

(** A HEAD is served by [read] although the supported set lacks it. *)
Example handle_request_head :
  @handle_request example_collaborators
    (example_resource "items" {[ "read" := λ _, Return (VStr "data") ]})
    {| method := "head"; input := VNone |} (Some ∅) empty_response
  = (Return (VStr "data"), empty_response).
Proof. reflexivity. Qed.

(** * Further properties *)

(** ** The method of a request *)

Lemma upper_ascii_idempotent (c : ascii) : upper_ascii (upper_ascii c) = upper_ascii c.
Proof. by destruct c as [[] [] [] [] [] [] [] []]. Qed.

Lemma upper_idempotent (s : string) : upper (upper s) = upper s.
Proof.
  induction s as [| c s IH]; simpl; [done |].
  by rewrite upper_ascii_idempotent, IH.
Qed.

Section Method.
Context `{Collaborators}.

(** X1: [handle_request] reads the method of the request through
    [upper] only: a request and the same request with its method in upper
    case are handled alike, state included. *)
Theorem handle_request_method_case
    (r : resource) (m : string) (data : value)
    (wrapper_args : option (gmap string value)) (resp : response) :
  handle_request r {| method := m; input := data |} wrapper_args resp
  = handle_request r {| method := upper m; input := data |} wrapper_args resp.
Proof.
  unfold handle_request, dispatch, _handle_request_with_model,
    Collection_handle_request_with_model, Resource_handle_request_with_model.
  simpl. by rewrite upper_idempotent.
Qed.

(** X2: a resource that is not lazy never calls its wrapped function to
    compose a model, so composing cannot raise; the declared model is
    returned as it is when there are no request arguments or when it can
    read, and the supported methods asked without a model are those of
    the declared model. *)
Theorem compose_model_not_lazy
    (r : resource) (wrapper_args : option (gmap string value))
    (Hlazy : lazy r = false) :
  raises (compose_model r wrapper_args) = false ∧
  (wrapper_args = None ∨ is_Some (model r !! "read") →
   compose_model r wrapper_args = Return (model r)) ∧
  get_supported_methods r None = get_supported_methods r (Some (model r)).
Proof.
  unfold compose_model. rewrite Hlazy.
  split; [| split].
  - destruct wrapper_args as [a |]; [| done].
    by destruct (contains (model r) "read").
  - intros [-> | Hread]; [done |].
    destruct wrapper_args as [a |]; [| done].
    apply contains_true in Hread. by rewrite Hread.
  - apply get_supported_methods_introspection.
    unfold compose_model. by rewrite Hlazy.
Qed.

(** X3: on a resource that is not lazy and whose declared model cannot
    read, a GET or HEAD with request arguments is answered by the wrapped
    function called with those arguments: its value is returned, and its
    exception goes to the error handler.  Composition is taken to keep a
    capability that only one operand has. *)
Theorem get_reads_through_wrapped
    (r : resource) (req : request) (wrapper_args : gmap string value)
    (resp : response)
    (Hlazy : lazy r = false)
    (Hread : model r !! "read" = None)
    (Hmethod : upper (method req) = "GET" ∨ upper (method req) = "HEAD")
    (Hcompose : ∀ (self other : gmap string operation) cap,
       compose self other !! cap
       = match other !! cap with
         | Some op => Some op
         | None => self !! cap
         end) :
  handle_request r req (Some wrapper_args) resp
  = (match wrapped r wrapper_args with
     | Return x => Return x
     | Raise err => error_handler r err
     end, resp).
Proof.
  set (new_model := ({[ "read" := λ args, match args with
                                          | [] => wrapped r wrapper_args
                                          | _ => Raise TypeError
                                          end ]} : gmap string operation)).
  assert (Hc : compose_model r (Some wrapper_args)
               = Return (compose (model r) new_model)).
  { unfold compose_model. rewrite Hlazy.
    apply contains_false in Hread. by rewrite Hread. }
  assert (Hlookup : compose (model r) new_model !! "read"
                    = Some ((λ args, match args with
                                     | [] => wrapped r wrapper_args
                                     | _ => Raise TypeError
                                     end) : operation)).
  { rewrite Hcompose. unfold new_model. by rewrite lookup_singleton_eq. }
  destruct (get_supported_methods_members r (compose (model r) new_model))
    as (s & Hs & Hin).
  assert (Hbase : Resource_handle_request_with_model r req (upper (method req))
                    (compose (model r) new_model) = wrapped r wrapper_args).
  { rewrite (Resource_handle_request_with_model_allowed r req _ _ s Hs).
    - unfold getitem. rewrite Hlookup.
      by destruct Hmethod as [-> | ->].
    - destruct Hmethod as [-> | ->]; [left; apply Hin; by left | by right]. }
  unfold handle_request, dispatch. rewrite Hc.
  unfold _handle_request_with_model, Collection_handle_request_with_model.
  rewrite Hbase.
  assert (Hnot_post : String.eqb (upper (method req)) "POST" = false)
    by (by destruct Hmethod as [-> | ->]).
  rewrite Hnot_post. simpl.
  by destruct (is_Collection r), (wrapped r wrapper_args).
Qed.

(** X4: asked for its supported methods without a model, a lazy resource
    calls its wrapped function with every declared parameter bound to
    [None] and nothing else; when that call raises, the exception is what
    [get_supported_methods] raises, and when it returns a dataset the
    methods are those of the declared model composed with the dataset
    model. *)
Theorem get_supported_methods_lazy_introspection
    (r : resource) (Hlazy : lazy r = true) :
  (∀ n, fake_args r !! n
        = if bool_decide (n ∈ wrapped_params r) then Some VNone else None) ∧
  (∀ err, wrapped r (fake_args r) = Raise err →
          get_supported_methods r None = Raise err) ∧
  (∀ dataset, wrapped r (fake_args r) = Return dataset →
     get_supported_methods r None
     = get_supported_methods r (Some (compose (model r) (DataSetDataModel dataset)))).
Proof.
  split; [| split].
  - intros n. unfold fake_args. case_bool_decide as Hn.
    + apply elem_of_list_to_map_1'.
      * intros y Hy. apply list_elem_of_fmap in Hy as (n' & [= _ ->] & _). done.
      * apply list_elem_of_fmap. by exists n.
    + apply not_elem_of_list_to_map_1. rewrite <- list_fmap_compose.
      intros Hin. apply list_elem_of_fmap in Hin as (n' & -> & Hin). done.
  - intros err Herr.
    unfold get_supported_methods, Collection_get_supported_methods,
      Resource_get_supported_methods, model_or_composed, compose_model.
    rewrite Hlazy. simpl. rewrite Herr. by destruct (is_Collection r).
  - intros dataset Hds. apply get_supported_methods_introspection.
    unfold compose_model. rewrite Hlazy. simpl. by rewrite Hds.
Qed.

(** X5: GET and HEAD are always dispatched to [read], whatever the model:
    on a composed model without [read] they fail with the key error of the
    lookup, not with method-not-allowed, and a resource constructed
    without an error handler turns that into the not-found condition. *)
Theorem get_without_read
    (r : resource) (req : request) (wrapper_args : option (gmap string value))
    (model : gmap string operation) (resp : response)
    (Hcompose : compose_model r wrapper_args = Return model)
    (Hread : model !! "read" = None)
    (Hmethod : upper (method req) = "GET" ∨ upper (method req) = "HEAD") :
  dispatch r req wrapper_args resp = (Raise (KeyError "read"), resp) ∧
  handle_request r req wrapper_args resp = (error_handler r (KeyError "read"), resp) ∧
  ∀ uuid_name generic_model args coll,
    r = Resource_init uuid_name generic_model args coll →
    arg_error_handler args = None →
    handle_request r req wrapper_args resp = (Raise NotFound, resp).
Proof.
  destruct (get_supported_methods_members r model) as (s & Hs & Hin).
  assert (Hbase : Resource_handle_request_with_model r req (upper (method req)) model
                  = Raise (KeyError "read")).
  { rewrite (Resource_handle_request_with_model_allowed r req _ _ s Hs).
    - unfold getitem. rewrite Hread. by destruct Hmethod as [-> | ->].
    - destruct Hmethod as [-> | ->]; [left; apply Hin; by left | by right]. }
  assert (Hdispatch : dispatch r req wrapper_args resp = (Raise (KeyError "read"), resp)).
  { unfold dispatch. rewrite Hcompose.
    unfold _handle_request_with_model, Collection_handle_request_with_model.
    rewrite Hbase.
    assert (Hnot_post : String.eqb (upper (method req)) "POST" = false)
      by (by destruct Hmethod as [-> | ->]).
    rewrite Hnot_post. simpl. by destruct (is_Collection r). }
  assert (Hhandled : handle_request r req wrapper_args resp
                     = (error_handler r (KeyError "read"), resp)).
  { unfold handle_request. by rewrite Hdispatch. }
  split; [exact Hdispatch | split; [exact Hhandled |]].
  intros uuid_name generic_model args coll -> Hnone.
  rewrite Hhandled. f_equal.
  unfold Resource_init. simpl. by rewrite Hnone.
Qed.

End Method.

Section Unreachable.
Context `{Collaborators}.

Lemma getitem_call_not_ValueError
    (model : gmap string operation) (cap : string) (args : list value) :
  (∀ c op xs, model !! c = Some op → fails_with is_ValueError (op xs) = false) →
  fails_with is_ValueError (op ← getitem model cap; op args) = false.
Proof.
  intros Hop. unfold getitem.
  destruct (model !! cap) as [op |] eqn:Hcap; simpl; [by eapply Hop | done].
Qed.

(** X6: the last branch of the dispatch, which raises [ValueError] for a
    method it has no case for, is never taken, whatever the method and
    the class of the resource: when neither the capabilities of the model
    nor the URL adapter raise a [ValueError], the dispatch raises none. *)
Theorem dispatch_has_a_case_for_every_supported_method
    (r : resource) (req : request) (m : string)
    (model : gmap string operation) (resp : response)
    (Hmodel : ∀ c op xs, model !! c = Some op →
                fails_with is_ValueError (op xs) = false)
    (Hbuild : ∀ endpoint values,
                fails_with is_ValueError (url_adapter_build endpoint values) = false) :
  fails_with is_ValueError (_handle_request_with_model r req m model resp).1 = false.
Proof.
  destruct (get_supported_methods_members r model) as (s & Hs & Hin).
  destruct (decide (m ∈ s ∨ m = "HEAD")) as [Hallowed | Hrejected].
  - unfold _handle_request_with_model, Collection_handle_request_with_model.
    assert (Hbase : is_Collection r && (String.eqb m "POST" && contains model "make") = false →
      fails_with is_ValueError (Resource_handle_request_with_model r req m model) = false).
    { intros Hnot_made.
      rewrite (Resource_handle_request_with_model_allowed r req m model s Hs Hallowed).
      destruct (String.eqb_spec m "GET") as [-> | HGET]; simpl;
        [by apply getitem_call_not_ValueError |].
      destruct (String.eqb_spec m "HEAD") as [-> | HHEAD]; simpl;
        [by apply getitem_call_not_ValueError |].
      destruct (String.eqb_spec m "DELETE") as [-> | HDELETE];
        [by apply getitem_call_not_ValueError |].
      destruct (String.eqb_spec m "PUT") as [-> | HPUT];
        [by apply getitem_call_not_ValueError |].
      exfalso. destruct Hallowed as [Hm | Hm]; [| done].
      apply Hin in Hm as [? | [[? ?] | [[? ?] | (-> & Hcoll & Hmake)]]]; try done.
      by rewrite Hcoll, Hmake in Hnot_made. }
    destruct (is_Collection r); [| by apply Hbase].
    destruct (String.eqb m "POST" && contains model "make"); [| by apply Hbase].
    pose proof (getitem_call_not_ValueError model "make" [input req] Hmodel) as Hmake.
    destruct (make ← getitem model "make"; make [input req]) as [ret_data | e]; [| done].
    destruct ret_data; try done.
    destruct (collects r) as [[child bind_args] |]; [| done].
    pose proof (Hbuild (name child) (bound_args bind_args items)) as Hurl.
    destruct (url_adapter_build _ _) as [url | e]; [done |].
    by destruct e.
  - assert (Hm : m ∉ s) by (intros Hm; apply Hrejected; by left).
    assert (Hhead : m ≠ "HEAD") by (intros Hm'; apply Hrejected; by right).
    by rewrite (_handle_request_with_model_rejects r req m model s resp Hs Hm Hhead).
Qed.

End Unreachable.

(** X2 on a resource that is not lazy and whose model can read. *)
Lemma compose_model_not_lazy_witness :
  let r := example_resource "items" {[ "read" := λ _, Return VNone ]} in
  lazy r = false ∧
  @compose_model example_collaborators r (Some ∅) = Return (model r).
Proof.
  intros r. split; [reflexivity |].
  destruct (@compose_model_not_lazy example_collaborators r (Some ∅) eq_refl)
    as (_ & Hsame & _).
  apply Hsame. right. exists (λ _, Return VNone). reflexivity.
Defined.

(** X3 on a resource without a model: the GET returns the empty mapping of
    the default wrapped function. *)
Lemma get_reads_through_wrapped_witness :
  let r := example_resource "items" ∅ in
  let req := {| method := "get"; input := VNone |} in
  lazy r = false ∧
  model r !! "read" = None ∧
  upper (method req) = "GET" ∧
  @handle_request example_collaborators r req (Some ∅) empty_response
  = (Return (VMap []), empty_response).
Proof.
  intros r req.
  split; [reflexivity | split; [reflexivity | split; [reflexivity |]]].
  exact (@get_reads_through_wrapped example_collaborators r req ∅ empty_response
           eq_refl eq_refl (or_introl eq_refl) compose_second_wins_lookup).
Defined.

(** X4 on the lazy resource whose wrapped function has the parameter [id]. *)
Lemma get_supported_methods_lazy_introspection_witness :
  lazy example_bare_lazy_resource = true ∧
  fake_args example_bare_lazy_resource !! "id" = Some VNone ∧
  fake_args example_bare_lazy_resource !! "name" = None.
Proof.
  split; [reflexivity |].
  destruct (@get_supported_methods_lazy_introspection bare_collaborators
              example_bare_lazy_resource eq_refl) as (Hargs & _ & _).
  split; [exact (eq_trans (Hargs "id") eq_refl) | exact (eq_trans (Hargs "name") eq_refl)].
Defined.

(** X5 on the lazy resource whose composed model has no capability. *)
Lemma get_without_read_witness :
  let req := {| method := "get"; input := VNone |} in
  @compose_model bare_collaborators example_bare_lazy_resource (Some ∅) = Return ∅ ∧
  upper (method req) = "GET" ∧
  @handle_request bare_collaborators example_bare_lazy_resource req (Some ∅)
    empty_response
  = (Raise NotFound, empty_response).
Proof.
  intros req.
  split; [reflexivity | split; [reflexivity |]].
  destruct (@get_without_read bare_collaborators example_bare_lazy_resource req
              (Some ∅) ∅ empty_response eq_refl (lookup_empty _) (or_introl eq_refl))
    as (_ & _ & Hdefault).
  exact (Hdefault _ _ _ _ eq_refl eq_refl).
Defined.

(** X6 on a method no resource supports. *)
Lemma dispatch_has_a_case_for_every_supported_method_witness :
  let model : gmap string operation := {[ "read" := λ _, Return VNone ]} in
  let r := example_resource "items" model in
  let req := {| method := "patch"; input := VNone |} in
  (∀ c op xs, model !! c = Some op → fails_with is_ValueError (op xs) = false) ∧
  (∀ endpoint values,
     fails_with is_ValueError
       (@url_adapter_build example_collaborators endpoint values) = false) ∧
  fails_with is_ValueError
    (@_handle_request_with_model example_collaborators r req "PATCH" model
       empty_response).1 = false.
Proof.
  intros model r req.
  assert (Hmodel : ∀ c op xs, model !! c = Some op →
                     fails_with is_ValueError (op xs) = false).
  { intros c op xs Hc. apply lookup_singleton_Some in Hc as [_ <-]. reflexivity. }
  assert (Hbuild : ∀ endpoint values,
     fails_with is_ValueError
       (@url_adapter_build example_collaborators endpoint values) = false)
    by reflexivity.
  split; [exact Hmodel | split; [exact Hbuild |]].
  exact (@dispatch_has_a_case_for_every_supported_method example_collaborators
           r req "PATCH" model empty_response Hmodel Hbuild).
Defined.

Lemma bound_args_absent
    (bind_args : gmap string string) (items : list (string * value)) (name : string) :
  name ∉ (λ kv : string * value, default kv.1 (bind_args !! kv.1)) <$> items →
  bound_args bind_args items !! name = None.
Proof.
  unfold bound_args.
  assert (Hkeep : ∀ acc : gmap string value,
    name ∉ (λ kv : string * value, default kv.1 (bind_args !! kv.1)) <$> items →
    foldl (λ args kv, <[default kv.1 (bind_args !! kv.1) := kv.2]> args) acc items
      !! name = acc !! name).
  { induction items as [| [k x] items IH]; intros acc Hnot; [done |].
    simpl in *. apply not_elem_of_cons in Hnot as [Hne Hnot].
    rewrite IH by done. by rewrite lookup_insert_ne. }
  intros Hnot. by rewrite Hkeep.
Qed.

(** X7: the arguments from which the URL of a made child is built are the
    fields of the made mapping under the names the binding gives them, and
    nothing else: when no two fields are bound to one name, every field is
    found under its bound name with its own value, and a name that is the
    bound name of no field is not among the arguments, so a field that the
    binding renames is no longer found under its own name unless another
    field is bound to it. *)
Theorem made_fields_reach_url_arguments
    (bind_args : gmap string string) (items : list (string * value))
    (Hdistinct :
       NoDup ((λ kv : string * value, default kv.1 (bind_args !! kv.1)) <$> items)) :
  (∀ k x, (k, x) ∈ items →
     bound_args bind_args items !! default k (bind_args !! k) = Some x) ∧
  (∀ name,
     name ∉ (λ kv : string * value, default kv.1 (bind_args !! kv.1)) <$> items →
     bound_args bind_args items !! name = None).
Proof.
  split.
  - intros k x Hin. by apply bound_args_lookup.
  - apply bound_args_absent.
Qed.

(** X7 on the binding of [id] to [item_id]: the made [id] is found as
    [item_id] and no longer as [id]. *)
Lemma made_fields_reach_url_arguments_witness :
  let bind_args : gmap string string := {[ "id" := "item_id" ]} in
  let items := [("id", VInt 7); ("name", VStr "a")] in
  NoDup ((λ kv : string * value, default kv.1 (bind_args !! kv.1)) <$> items) ∧
  bound_args bind_args items !! "item_id" = Some (VInt 7) ∧
  bound_args bind_args items !! "id" = None.
Proof.
  intros bind_args items.
  assert (Hnd : NoDup ((λ kv : string * value, default kv.1 (bind_args !! kv.1)) <$> items)).
  { apply (bool_decide_unpack _). reflexivity. }
  destruct (made_fields_reach_url_arguments bind_args items Hnd) as [Hfound Habsent].
  split; [exact Hnd | split].
  - apply (Hfound "id" (VInt 7)). by left.
  - apply Habsent. apply (bool_decide_unpack _). reflexivity.
Defined.

(** ** The converter grammar *)


Lemma string_app_nil (r : string) : "" +:+ r = r.
Proof. reflexivity. Qed.

Lemma string_app_cons (c : ascii) (s r : string) : String c s +:+ r = String c (s +:+ r).
Proof. reflexivity. Qed.







(** ** Field names with asterisks *)

Lemma leading_asterisks_app (n : nat) (f : string) :
  (leading_asterisks f).1 = 0 →
  leading_asterisks (asterisks n +:+ f) = (n, f).
Proof.
  intros Hf. induction n as [| n IH].
  - simpl. rewrite string_app_nil.
    destruct f as [| c f]; [done |]. simpl in *.
    destruct (Ascii.eqb c "*"); [| done].
    by destruct (leading_asterisks f).
  - simpl. rewrite ?string_app_cons. simpl. by rewrite IH.
Qed.

(** X9: a field name that begins with an even number of asterisks is
    optional and one that begins with an odd number is required; either
    way half of the leading asterisks, rounded down, are kept in the name.
    So a single asterisk marks a required field and is dropped, and a
    literal leading asterisk is written twice. *)
Theorem conv_field_asterisks_halved (k : nat) (f : string)
    (Hf : (leading_asterisks f).1 = 0) :
  conv_field (asterisks (2 * k) +:+ f) = (asterisks k +:+ f, false) ∧
  conv_field (asterisks (2 * k + 1) +:+ f) = (asterisks k +:+ f, true).
Proof.
  unfold conv_field. rewrite !leading_asterisks_app by done.
  assert (H1 : (2 * k) / 2 = k) by (rewrite Nat.mul_comm; by apply Nat.div_mul).
  assert (H2 : (2 * k + 1) / 2 = k).
  { rewrite (Nat.mul_comm 2 k), Nat.div_add_l by done. simpl. lia. }
  assert (H3 : Nat.odd (2 * k) = false).
  { rewrite Nat.odd_mul. done. }
  assert (H4 : Nat.odd (2 * k + 1) = true).
  { rewrite Nat.odd_add, H3. done. }
  by rewrite H1, H2, H3, H4.
Qed.

Lemma conv_field_asterisks_halved_witness :
  (leading_asterisks "id").1 = 0 ∧
  conv_field "**id" = ("*id", false) ∧
  conv_field "***id" = ("*id", true).
Proof.
  split; [reflexivity |].
  exact (conv_field_asterisks_halved 1 "id" eq_refl).
Defined.

(** ** Registering rules *)

Lemma normalize_items_Return (spec : odict raw_spec) (spec' : odict stored_spec) :
  normalize_items spec = Return spec' →
  spec' = prod_map id validate_item_spec <$> spec.
Proof.
  revert spec'. induction spec as [| [field raw] spec IH]; intros spec'; simpl.
  - by intros [= <-].
  - destruct (is_False raw); [done |].
    destruct (normalize_items spec) as [rest |]; simpl; [| done].
    intros [= <-]. by rewrite (IH rest eq_refl).
Qed.

Lemma od_get_fmap {V W} (f : V → W) (d : odict V) (k : string) :
  od_get (prod_map id f <$> d) k = f <$> od_get d k.
Proof.
  induction d as [| [k0 x0] d IH]; simpl; [done |].
  by destruct (String.eqb k0 k).
Qed.

Lemma od_keys_fmap {V W} (f : V → W) (d : odict V) :
  od_keys (prod_map id f <$> d) = od_keys d.
Proof.
  unfold od_keys. rewrite <- list_fmap_compose. by apply list_fmap_ext; intros ? [].
Qed.

Lemma od_contains_update {V} (d other : odict V) (k : string) :
  od_contains (od_update d other) k
  = od_contains d k || bool_decide (k ∈ od_keys other).
Proof.
  unfold od_update, od_keys. revert d.
  induction other as [| [k0 x0] other IH]; intros d; simpl.
  - by rewrite orb_false_r.
  - rewrite IH.
    assert (Hset : od_contains (od_set k0 x0 d) k
                   = if String.eqb k0 k then true else od_contains d k).
    { unfold od_contains. rewrite od_get_set. by destruct (String.eqb k0 k). }
    rewrite Hset.
    destruct (String.eqb_spec k0 k) as [-> | Hne].
    + simpl. symmetry. apply orb_true_iff. right.
      apply bool_decide_eq_true. by left.
    + f_equal. apply bool_decide_ext. rewrite elem_of_cons. naive_solver.
Qed.

(** X10: a registration that returns overrides the table of its key field
    by field: a field it names gets the normal form of the converter
    given for it, and every other field keeps its entry.  The tables of
    the other keys, the allow-lists and the strip flags are left as they
    were. *)
Theorem register_spec_overrides_by_field
    (v v' : validator) (key : option string) (spec : odict raw_spec)
    (Hdistinct : NoDup (od_keys spec))
    (Hregistered : __register_spec v key spec = Return v') :
  (∀ field,
     od_get (default [] (validation_specs v' !! key)) field
     = match od_get spec field with
       | Some raw => Some (validate_item_spec raw)
       | None => od_get (default [] (validation_specs v !! key)) field
       end) ∧
  (∀ key', key' ≠ key → validation_specs v' !! key' = validation_specs v !! key') ∧
  restriction_specs v' = restriction_specs v ∧
  strip_extras v' = strip_extras v ∧
  include_collections v' = include_collections v.
Proof.
  unfold __register_spec in Hregistered.
  destruct (normalize_items spec) as [spec' |] eqn:Hnorm; simpl in Hregistered; [| done].
  apply normalize_items_Return in Hnorm as ->.
  injection Hregistered as <-. simpl.
  split; [| split; [| done]].
  - intros field. rewrite lookup_insert_eq. simpl.
    rewrite od_get_update by (by rewrite od_keys_fmap).
    rewrite od_get_fmap. by destruct (od_get spec field).
  - intros key' Hne. by rewrite lookup_insert_ne.
Qed.

Lemma register_spec_overrides_by_field_witness :
  let r := example_resource "numbers" ∅ in
  let spec := [("b", RawStr "int(min=1)"); ("d", RawList [RawCallable int_converter])] in
  let v := example_enforcing_validator r in
  ∃ v',
    NoDup (od_keys spec) ∧
    enforce v r spec = Return v' ∧
    od_get (default [] (validation_specs v' !! Some (name r))) "b"
    = Some (SNamed "int" (Some "min=1")) ∧
    od_get (default [] (validation_specs v' !! Some (name r))) "a"
    = Some (SCallable int_converter).
Proof.
  intros r spec v.
  assert (Hnd : NoDup (od_keys spec)) by (apply (bool_decide_unpack _); reflexivity).
  eexists. split; [exact Hnd |]. split; [reflexivity |].
  destruct (register_spec_overrides_by_field v _ (Some (name r)) spec Hnd eq_refl)
    as (Hfield & _).
  split; [exact (eq_trans (Hfield "b") eq_refl) | exact (eq_trans (Hfield "a") eq_refl)].
Defined.

(** X11: [restrict] only ever lengthens the allow-list of its resource:
    afterwards a field is allowed exactly when it was allowed before or is
    one of the fields given, asterisks apart.  The strip flag of the
    resource is the one of this call, and the converter tables and what is
    recorded for other resources are left as they were. *)
Theorem restrict_lengthens_allow_list
    (v : validator) (r : resource) (fields : list string) (strip_extra : bool) :
  let v' := restrict v r fields strip_extra in
  let before := default [] (restriction_specs v !! name r) in
  let after := default [] (restriction_specs v' !! name r) in
  is_Some (restriction_specs v' !! name r) ∧
  (∀ f, od_contains after f = true
        ↔ od_contains before f = true ∨
          ∃ field, field ∈ fields ∧ (conv_field field).1 = f) ∧
  strip_extras v' !! name r = Some strip_extra ∧
  validation_specs v' = validation_specs v ∧
  (∀ n, n ≠ name r →
        restriction_specs v' !! n = restriction_specs v !! n ∧
        strip_extras v' !! n = strip_extras v !! n).
Proof.
  intros v' before after. subst v' after. unfold restrict, restrict_to. simpl.
  rewrite !lookup_insert_eq. simpl. fold before.
  split; [by eexists |]. split; [| split; [done | split; [done |]]].
  - intros f. rewrite od_contains_update, orb_true_iff, bool_decide_eq_true.
    unfold od_keys. rewrite <- list_fmap_compose, list_elem_of_fmap.
    naive_solver.
  - intros n Hne. by rewrite !lookup_insert_ne.
Qed.

(** ** Validation without rules, and inherited allow-lists *)


Lemma active_restrictions_none (v : validator) (r : resource) :
  restriction_specs v !! name r = None →
  include_collections v = false ∨ collects r = None →
  (active_restrictions v r).1 = None.
Proof.
  intros Hno_allow_list Hno_inheritance.
  unfold active_restrictions. rewrite Hno_allow_list.
  destruct Hno_inheritance as [-> | ->]; [done |].
  by destruct (include_collections v).
Qed.

Lemma __handle_restrictions_none (v : validator) (r : resource) (data : container) :
  (active_restrictions v r).1 = None →
  __handle_restrictions v r data = Return data.
Proof.
  intros Hactive. unfold __handle_restrictions.
  destruct (active_restrictions v r) as [restrictions strip]. simpl in Hactive.
  by subst restrictions.
Qed.



(** X13: under [include_collections] a Collection that has no allow-list
    of its own is restricted as the resource it collects: by the same
    allow-list and the same strip flag when that resource has an
    allow-list; and when it has none either, by an empty allow-list, so
    that every input over which the wrapper iterates at all is refused.
    The failure is the unexpected-fields one and lists everything the
    iteration gives (the keys of a dict or a MultiDict, the items of a
    sequence, the pairs of the members of an object) unless one of these
    cannot be hashed, which raises [TypeError]. *)
Theorem collection_inherits_allow_list
    (v : validator) (r child : resource) (bind_args : gmap string string)
    (data : input_data)
    (Hcollects : collects r = Some (child, bind_args))
    (Hinherit : include_collections v = true)
    (Hown : restriction_specs v !! name r = None) :
  let input := _ContainerWrapper data in
  (is_Some (restriction_specs v !! name child) →
   ∀ wrapped, __handle_restrictions v r wrapped = __handle_restrictions v child wrapped) ∧
  (restriction_specs v !! name child = None →
   strip_extras v !! name child = None →
   c_iter input ≠ [] →
   validate v r data
   = if forallb hashable (c_iter input) then Raise (UnexpectedFields (c_iter input))
     else Raise TypeError).
Proof.
  intros input.
  assert (Hactive : active_restrictions v r
    = (Some (default [] (restriction_specs v !! name child)),
       default false (strip_extras v !! name child))).
  { unfold active_restrictions. by rewrite Hown, Hinherit, Hcollects. }
  split.
  - intros [restrictions Hchild] wrapped.
    unfold __handle_restrictions. rewrite Hactive.
    unfold active_restrictions. by rewrite Hchild.
  - intros Hchild Hstrip Hfields.
    unfold validate, __handle_restrictions. fold input.
    rewrite Hactive, Hchild, Hstrip. simpl.
    rewrite extra_fields_nil. destruct (forallb hashable (c_iter input)); [| done].
    simpl. rewrite bool_decide_eq_true_2 by done. by rewrite andb_false_r.
Qed.

Lemma collection_inherits_allow_list_witness :
  let child := example_resource "item" ∅ in
  let r := example_collection child "items" ∅ in
  let v := Validator_init true in
  collects r = Some (child, ∅) ∧
  restriction_specs v !! name r = None ∧
  validate v r (Mapping [("name", VStr "a")]) = Raise (UnexpectedFields [VStr "name"]) ∧
  validate v r (Sequence [VSeq []]) = Raise TypeError.
Proof.
  intros child r v.
  split; [reflexivity | split; [reflexivity |]].
  destruct (collection_inherits_allow_list v r child ∅ (Mapping [("name", VStr "a")])
              eq_refl eq_refl eq_refl) as (_ & Hdict).
  destruct (collection_inherits_allow_list v r child ∅ (Sequence [VSeq []])
              eq_refl eq_refl eq_refl) as (_ & Hlist).
  split; [apply Hdict | apply Hlist]; try reflexivity; discriminate.
Defined.

(** ** Converters that were never prepared *)



(** ** What validation returns *)

Lemma convert_fields_shape
    (spec : odict stored_spec) (w out : container) (errs errs' : list string) :
  convert_fields spec w errs = Return (out, errs') →
  c_keys out = c_keys w ∧
  c_is_mapping out = c_is_mapping w ∧
  (list_fields_held w → list_fields_held out).
Proof.
  revert w errs. induction spec as [| [f0 s0] spec IH]; intros w errs; cbn [convert_fields].
  - by intros [= <- _].
  - destruct (c_contains w f0) eqn:Hpresent; [| by apply IH].
    pose proof (checked_same w (KField f0) s0) as (Hkeys1 & Hcontains1 & _ & _).
    assert (Hheld1 : list_fields_held w → list_fields_held (checked w (KField f0) s0)).
    { destruct s0, w as [c | c list_fields | c | c]; simpl; try done.
      intros Hheld. case_bool_decide; [done |].
      apply Forall_app. split; [done |]. by repeat constructor. }
    assert (Hshape1 : c_is_mapping (checked w (KField f0) s0) = c_is_mapping w)
      by (by destruct s0, w).
    destruct (__check_item w (KField f0) s0) as [converted | e].
    + destruct (c_setitem (checked w (KField f0) s0) f0 converted) as [w' |] eqn:Hset;
        cbn [mbind outcome_bind]; [| done].
      intros Hrun. apply IH in Hrun as (Hkeys & Hshape & Hheld).
      pose proof (c_setitem_Return _ _ _ _ Hset ltac:(by rewrite Hcontains1))
        as (Hkeys2 & Hcontains2 & _ & _).
      split; [by rewrite Hkeys, Hkeys2 |].
      split.
      * rewrite Hshape, <- Hshape1. clear -Hset.
        by destruct (checked w (KField f0) s0); simplify_eq/=.
      * intros Hw. apply Hheld. apply Hheld1 in Hw. clear -Hset Hw Hcontains2.
        destruct (checked w (KField f0) s0) as [c | c list_fields | c | c];
          simplify_eq/=; try done.
        eapply Forall_impl; [exact Hw |]. intros field Hfield.
        by rewrite (Hcontains2 field).
    + destruct (is_InvalidSpecificationError e); [done |].
      intros Hrun. apply IH in Hrun as (Hkeys & Hshape & Hheld).
      split; [by rewrite Hkeys |]. split; [by rewrite Hshape |].
      intros Hw. apply Hheld. by apply Hheld1.
Qed.

Lemma setlist_fields_keys (list_fields : list string) (c c' : multidict) :
  Forall (λ field, od_contains c field = true) list_fields →
  foldl (λ acc field, c ← acc; setlist_field c field) (Return c) list_fields = Return c' →
  od_keys c' = od_keys c.
Proof.
  revert c. induction list_fields as [| f list_fields IH]; intros c Hheld; simpl.
  - by intros [= <-].
  - apply Forall_cons in Hheld as [Hf Hheld].
    destruct (setlist_field c f) as [c1 |] eqn:Hc1.
    + assert (Hkeys : od_keys c1 = od_keys c).
      { unfold setlist_field in Hc1. destruct (as_iterable _); [| done].
        injection Hc1 as <-. by rewrite od_keys_set, Hf. }
      intros Hrun. apply IH in Hrun; [by rewrite Hrun |].
      eapply Forall_impl; [exact Hheld |]. intros field Hfield. simpl in *.
      apply od_contains_elem_of. rewrite Hkeys. by apply od_contains_elem_of.
    + intros Hrun. exfalso. clear -Hrun.
      induction list_fields as [| f' list_fields IH']; [done | by apply IH'].
Qed.

(** What [unwrap] returns for a wrapped dictionary is a dictionary of
    the same keys. *)
Lemma unwrap_keys (w : container) (out : input_data) :
  c_is_mapping w = true → list_fields_held w →
  unwrap w = Return out →
  is_mapping out = true ∧ keys out = c_keys w.
Proof.
  destruct w as [c | c list_fields | c | c]; simpl; try done.
  - intros _ Hheld.
    destruct (foldl _ _ _) as [c' |] eqn:Hrun; simpl; [| done].
    intros [= <-]. split; [done |]. simpl. by eapply setlist_fields_keys.
  - by intros _ _ [= <-].
Qed.

(** X15: for an input that is a dict or a MultiDict, what [validate]
    returns is again one and has the keys of the wrapped input, in their
    order, less the keys that the allow-list in force does not name:
    validation adds no field and moves none.  Under an allow-list every
    required field is among them. *)
Theorem validate_output_fields
    (v : validator) (r : resource) (data out : input_data)
    (Hmapping : is_mapping data = true)
    (Hvalid : validate v r data = Return out) :
  let input := _ContainerWrapper data in
  is_mapping out = true ∧
  (NoDup (keys data) → c_keys input = keys data) ∧
  match (active_restrictions v r).1 with
  | None => keys out = c_keys input
  | Some restrictions =>
      keys out = filter (λ f, od_contains restrictions f = true) (c_keys input) ∧
      ∀ f, (f, true) ∈ restrictions → f ∈ keys out
  end.
Proof.
  intros input. unfold validate in Hvalid. fold input in Hvalid.
  destruct (__handle_restrictions v r input) as [w |] eqn:Hw; simpl in Hvalid; [| done].
  destruct (convert_fields (merged_spec v r) w []) as [[out' errs] |] eqn:Hrun;
    simpl in Hvalid; [| done].
  destruct (bool_decide (errs ≠ [])); [done |].
  apply convert_fields_shape in Hrun as (Hkeys & Hshape & Hheld).
  assert (Hrestricted :
    c_is_mapping w = true ∧ list_fields_held w ∧
    match (active_restrictions v r).1 with
    | None => c_keys w = c_keys input
    | Some restrictions =>
        c_keys w = filter (λ f, od_contains restrictions f = true) (c_keys input) ∧
        ∀ f, (f, true) ∈ restrictions → f ∈ c_keys w
    end).
  { pose proof (_ContainerWrapper_NoDup data) as Hnd. fold input in Hnd.
    destruct (active_restrictions v r) as [[restrictions |] strip] eqn:Hactive;
      cbn [fst].
    - assert (Hrequired : ∀ (V : Type) (c : odict V),
        (filter (λ fr, fr.2 = true ∧ od_contains c fr.1 = false) restrictions).*1 = [] →
        ∀ f, (f, true) ∈ restrictions →
          f ∈ filter (λ f, od_contains restrictions f = true) (od_keys c)).
      { intros V c Hmissing f Hf.
        apply list_elem_of_filter. split; [by eapply od_contains_of_elem_of |].
        apply od_contains_elem_of.
        destruct (od_contains c f) eqn:Hpresent; [done |]. exfalso.
        apply fmap_nil_inv in Hmissing.
        by apply (filter_nil_not_elem_of _ _ (f, true) Hmissing). }
      subst input.
      destruct data as [c | c | c | c]; try discriminate Hmapping; simpl in *.
      + rewrite (__handle_restrictions_allow_list (λ c, CMulti c []) ltac:(by intros ?? [= ->])
                   ltac:(done) ltac:(done) ltac:(done) v r _ restrictions strip Hactive Hnd)
          in Hw.
        destruct (bool_decide (_ ≠ []) && negb strip); [done |].
        case_bool_decide as Hmissing; [done |].
        injection Hw as <-. simpl. rewrite od_keys_filter_key.
        split; [done |]. split; [constructor |]. split; [done |].
        by apply Hrequired.
      + rewrite (__handle_restrictions_allow_list CMap ltac:(by intros ?? [= ->])
                   ltac:(done) ltac:(done) ltac:(done) v r _ restrictions strip Hactive Hnd)
          in Hw.
        destruct (bool_decide (_ ≠ []) && negb strip); [done |].
        case_bool_decide as Hmissing; [done |].
        injection Hw as <-. simpl. rewrite od_keys_filter_key.
        split; [done |]. split; [done |]. split; [done |].
        by apply Hrequired.
    - rewrite __handle_restrictions_none in Hw by (by rewrite Hactive).
      injection Hw as <-. subst input.
      destruct data; try discriminate Hmapping; simpl; by repeat constructor. }
  destruct Hrestricted as (Hw_mapping & Hw_held & Hw_keys).
  destruct (unwrap_keys out' out) as [Hout_mapping Hout_keys];
    [by rewrite Hshape | by apply Hheld | done |].
  split; [exact Hout_mapping |].
  split; [apply _ContainerWrapper_keys |].
  rewrite Hout_keys, Hkeys. exact Hw_keys.
Qed.

Lemma validate_output_fields_witness :
  let r := example_resource "users" ∅ in
  let v := example_restricted_validator r true in
  let data := MultiDict [("extra", [VStr "y"]); ("name", [VStr "a"]); ("id", [VStr "1"])] in
  let out := MultiDict [("name", [VStr "a"]); ("id", [VStr "1"])] in
  is_mapping data = true ∧
  validate v r data = Return out ∧
  keys out = ["name"; "id"].
Proof.
  intros r v data out.
  assert (Hvalid : validate v r data = Return out) by reflexivity.
  split; [reflexivity | split; [exact Hvalid |]].
  destruct (validate_output_fields v r data out eq_refl Hvalid) as (_ & _ & Hkeys & _).
  exact (eq_trans Hkeys eq_refl).
Defined.

Lemma convert_fields_app
    (pre post : odict stored_spec) (w : container) (errs : list string) :
  convert_fields (pre ++ post) w errs
  = '(w', errs') ← convert_fields pre w errs; convert_fields post w' errs'.
Proof.
  revert w errs. induction pre as [| [f0 s0] pre IH]; intros w errs; simpl; [done |].
  destruct (c_contains w f0); [| by apply IH].
  destruct (__check_item w (KField f0) s0) as [converted | e].
  - destruct (c_setitem _ _ _); simpl; [by apply IH | done].
  - destruct (is_InvalidSpecificationError e); [done | by apply IH].
Qed.

(** X16: [validate] does not collect the invalid-specification failure:
    at the first field of the merged spec, present in the input, whose
    check raises it, validation stops and raises it, and the conversion
    failures of the fields before it are not reported. *)
Theorem malformed_spec_aborts_validation
    (v : validator) (r : resource) (data : input_data) (wrapped : container)
    (pre post : odict stored_spec) (field : string) (s : stored_spec)
    (Hrestricted : __handle_restrictions v r (_ContainerWrapper data) = Return wrapped)
    (Hsplit : merged_spec v r = (pre ++ (field, s) :: post)%list)
    (Hpre : ∀ f s', (f, s') ∈ pre → c_contains wrapped f = true →
       fails_with is_InvalidSpecificationError
         (__check_item wrapped (KField f) s') = false)
    (Hpresent : c_contains wrapped field = true)
    (Hmalformed : __check_item wrapped (KField field) s
                  = Raise InvalidSpecificationError) :
  validate v r data = Raise InvalidSpecificationError.
Proof.
  pose proof (merged_spec_NoDup v r) as Hnd. rewrite Hsplit in Hnd.
  unfold od_keys in Hnd. rewrite fmap_app in Hnd.
  apply NoDup_app in Hnd as (Hnd_pre & Hfresh & _).
  assert (Hfield : od_get pre field = None).
  { apply od_get_None. intros Hin. apply (Hfresh field Hin). simpl. by left. }
  destruct (convert_fields_run pre wrapped Hnd_pre Hpre wrapped [] ltac:(done))
    as (out & Hrun & _ & Hcontains & Hlists & Hout).
  unfold validate. rewrite Hrestricted, Hsplit. simpl.
  rewrite convert_fields_app, Hrun. simpl.
  rewrite Hcontains, Hpresent.
  rewrite (__check_item_ext out wrapped (KField field) (KField field));
    [by rewrite Hmalformed | by rewrite Hout, Hfield | by apply Hlists].
Qed.

Lemma malformed_spec_aborts_validation_witness :
  let r := example_resource "numbers" ∅ in
  let data := [("a", VStr "x"); ("b", VStr "1")] in
  ∃ v,
    enforce (Validator_init true) r
      [("a", RawCallable int_converter); ("b", RawInt 5)] = Return v ∧
    merged_spec v r = ([("a", SCallable int_converter)] ++ [("b", SFalse)])%list ∧
    raises (__check_item (CMap data) (KField "a") (SCallable int_converter)) = true ∧
    validate v r (Mapping data) = Raise InvalidSpecificationError.
Proof.
  intros r data. eexists.
  split; [reflexivity |]. split; [reflexivity |]. split; [reflexivity |].
  apply (malformed_spec_aborts_validation _ r (Mapping data) (CMap data)
           [("a", SCallable int_converter)] [] "b" SFalse);
    [reflexivity | reflexivity | | reflexivity | reflexivity].
  intros f s' Hin _.
  apply list_elem_of_singleton in Hin. injection Hin as -> ->. reflexivity.
Defined.

(** ** List fields *)

(** The check of the item at a position of a list is the check of that
    item alone. *)
Lemma mapM_items (child : stored_spec) (pre l : list value) :
  mapM (λ i, __check_item (CSeq (pre ++ l)%list) (KIndex i) child)
       (seq (length pre) (length l))
  = mapM (λ x, __check_item (CSeq [x]) (KIndex 0) child) l.
Proof.
  revert pre. induction l as [| a l IH]; intros pre; [done |].
  cbn [length seq mapM].
  rewrite (__check_item_ext (CSeq (pre ++ a :: l)%list) (CSeq [a])
             (KIndex (length pre)) (KIndex 0)).
  - specialize (IH (pre ++ [a])%list).
    rewrite <- app_assoc, length_app, Nat.add_1_r in IH. simpl in IH.
    by rewrite IH.
  - simpl. by rewrite list_lookup_middle.
  - simpl. by rewrite list_lookup_middle.
Qed.

Lemma mapM_Return {A} (fn : A → outcome value) (l : list A) (out : list value) :
  Forall2 (λ x y, fn x = Return y) l out → mapM fn l = Return out.
Proof.
  induction 1 as [| x y l out Hx _ IH]; [done |].
  simpl. rewrite Hx. simpl. by rewrite IH.
Qed.

Lemma mapM_Raise {A} (fn : A → outcome value) (l1 l2 : list A) (out1 : list value)
    (x : A) (e : exn) :
  Forall2 (λ x y, fn x = Return y) l1 out1 → fn x = Raise e →
  mapM fn (l1 ++ x :: l2)%list = Raise e.
Proof.
  induction 1 as [| x1 y1 l1 out1 Hx1 _ IH]; intros Hx; simpl.
  - by rewrite Hx.
  - rewrite Hx1. simpl. by rewrite IH.
Qed.

(** X17: a field declared as a list of a converter is converted item by
    item, in order, each item being checked on its own against the
    converter of the list, which for a callable is its call on the item.
    When every item converts, the field becomes the list of the converted
    items; otherwise the check of the field raises what the first item
    that fails to convert raised.  The items are what [getlist] returns:
    for a MultiDict all the values of the key, none when the key is
    absent; for any other wrapper the value under the key, which raises
    [ValueError] unless it is a sequence. *)
Theorem list_field_converted_item_by_item
    (data : container) (k : key) (child : stored_spec) :
  let checked_list := __check_item data k (SList child) in
  let checked_item x := __check_item (CSeq [x]) (KIndex 0) child in
  (∀ items out,
     c_getlist data k = Return items →
     Forall2 (λ x y, checked_item x = Return y) items out →
     checked_list = Return (VSeq out)) ∧
  (∀ before x after converted e,
     c_getlist data k = Return (before ++ x :: after)%list →
     Forall2 (λ x y, checked_item x = Return y) before converted →
     checked_item x = Raise e →
     checked_list = Raise e) ∧
  (∀ e, c_getlist data k = Raise e → checked_list = Raise e) ∧
  (∀ fn x, __check_item (CSeq [x]) (KIndex 0) (SCallable fn) = fn x) ∧
  match data, k with
  | CMulti c _, KField field => c_getlist data k = Return (default [] (od_get c field))
  | CMulti c _, KIndex _ => True
  | _, _ =>
      c_getlist data k
      = match c_getitem data k with
        | Return x =>
            match as_sequence x with
            | Some items => Return items
            | None => Raise ValueError
            end
        | Raise e => Raise e
        end
  end.
Proof.
  intros checked_list checked_item.
  assert (Hitems : ∀ items, c_getlist data k = Return items →
    checked_list = converted ← mapM checked_item items; Return (VSeq converted)).
  { intros items Hget. unfold checked_list. cbn [__check_item]. rewrite Hget.
    cbn [mbind outcome_bind _ContainerWrapper].
    pose proof (mapM_items child [] items) as Hm. simpl in Hm. by rewrite Hm. }
  split; [| split; [| split; [| split]]].
  - intros items out Hget Hall. rewrite (Hitems items Hget).
    by rewrite (mapM_Return checked_item items out).
  - intros before x after converted e Hget Hall Hx. rewrite (Hitems _ Hget).
    by rewrite (mapM_Raise checked_item before after converted x e).
  - intros e Hget. unfold checked_list. cbn [__check_item]. by rewrite Hget.
  - done.
  - destruct data, k; try done; simpl; by destruct (_ !! _).
Qed.

(** ** Preparation of the converters *)

Section PrepareProperties.
Context `{Routing}.

Lemma fix_spec_idempotent (s s' : stored_spec) :
  fix_spec s = Return s' → fix_spec s' = Return s'.
Proof.
  revert s'. induction s as [| | cname args | inner IH | fn | fullmatch to_python];
    intros s'; simpl; try (by intros [= <-]).
  - destruct (match args with
              | Some a => parse_converter_args a
              | None => Return ([], [])
              end) as [parsed |]; simpl; [| done].
    destruct (url_map_converters !! cname) as [ccls |]; [| by intros [= <-]].
    destruct (ccls parsed) as [conv |]; simpl; [| done].
    destruct (re_compile (converter_regex conv)); simpl; [| done].
    by intros [= <-].
  - destruct (fix_spec inner) as [fixed |] eqn:Hinner; simpl; [| done].
    intros [= <-]. simpl. by rewrite (IH fixed eq_refl).
Qed.

Lemma prepare_fields_refused
    (pre post : odict stored_spec) (field : string) (s : stored_spec)
    (table : odict stored_spec) :
  Forall (λ fs, ∃ s', fix_spec fs.2 = Return s' ∧ s' ≠ SNone) pre →
  fix_spec s = Return SNone →
  (prepare_fields (pre ++ (field, s) :: post) table).1 = Raise InvalidSpecificationError.
Proof.
  intros Hpre Hs. revert table.
  induction Hpre as [| [f0 s0] pre (s' & Hs0 & Hnone) _ IH]; intros table; simpl.
  - by rewrite Hs.
  - simpl in Hs0. rewrite Hs0. by destruct s'.
Qed.

(** X18: preparation refuses a converter name that the routing table does
    not know when the name is the converter of a field: at the first such
    field of a table it raises the invalid-specification failure.  It does
    not refuse such a name inside a list converter: the table then holds a
    list of nothing, and the failure is raised by the check of the first
    request that brings a non-empty list for the field. *)
Theorem prepare_refuses_unknown_converter
    (pre post : odict stored_spec) (field cname : string) (args : option string)
    (Hpre : Forall (λ fs, ∃ s', fix_spec fs.2 = Return s' ∧ s' ≠ SNone) pre)
    (Hunknown : url_map_converters !! cname = None)
    (Hargs : ∀ a, args = Some a → raises (parse_converter_args a) = false) :
  (prepare_table (pre ++ (field, SNamed cname args) :: post)%list).1
  = Raise InvalidSpecificationError ∧
  prepare_table [(field, SList (SNamed cname args))]
  = (Return (), [(field, SList SNone)]) ∧
  (∀ d x items,
     od_get d field = Some (VSeq (x :: items)) →
     __check_item (CMap d) (KField field) (SList SNone)
     = Raise InvalidSpecificationError) ∧
  (∀ d, od_get d field = Some (VSeq []) →
     __check_item (CMap d) (KField field) (SList SNone) = Return (VSeq [])).
Proof.
  assert (Hfix : fix_spec (SNamed cname args) = Return SNone).
  { simpl. rewrite Hunknown. destruct args as [a |]; [| done].
    specialize (Hargs a eq_refl). by destruct (parse_converter_args a). }
  split; [| split; [| split]].
  - by apply prepare_fields_refused.
  - unfold prepare_table. cbn [prepare_fields fix_spec] in *.
    rewrite Hfix. simpl. by rewrite String.eqb_refl.
  - intros d x items Hget. simpl. unfold c_getlist. simpl. by rewrite Hget.
  - intros d Hget. simpl. unfold c_getlist. simpl. by rewrite Hget.
Qed.

Lemma od_set_id {V} (d : odict V) (k : string) (x : V) :
  od_get d k = Some x → od_set k x d = d.
Proof.
  induction d as [| [k0 x0] d IH]; simpl; [done |].
  destruct (String.eqb k0 k); [by intros [= ->] |].
  intros Hget. by rewrite IH.
Qed.

Lemma od_get_is_Some {V} (d : odict V) (k : string) :
  k ∈ od_keys d → is_Some (od_get d k).
Proof.
  intros Hk. apply od_contains_elem_of in Hk. unfold od_contains in Hk.
  by destruct (od_get d k).
Qed.

(** What a preparation that returns has done to each field. *)
Lemma prepare_fields_Return (items : odict stored_spec) :
  NoDup (od_keys items) →
  ∀ table table',
    (∀ f, f ∈ od_keys items → od_contains table f = true) →
    prepare_fields items table = (Return (), table') →
    od_keys table' = od_keys table ∧
    ∀ f, match od_get items f with
         | Some s => ∃ s', fix_spec s = Return s' ∧ s' ≠ SNone ∧
                           od_get table' f = Some s'
         | None => od_get table' f = od_get table f
         end.
Proof.
  unfold od_keys at 1 2.
  induction items as [| [f0 s0] items IH]; intros Hnd table table' Hin; simpl.
  - by intros [= <-].
  - rewrite fmap_cons in Hnd. apply NoDup_cons in Hnd as [Hfresh Hnd].
    destruct (fix_spec s0) as [s' |] eqn:Hs0; [| done].
    assert (Hpresent : od_contains table f0 = true) by (apply Hin; by left).
    assert (Hstep : s' ≠ SNone →
      prepare_fields items (od_set f0 s' table) = (Return (), table') →
      od_keys table' = od_keys table ∧
      ∀ f, match (if String.eqb f0 f then Some s0 else od_get items f) with
           | Some s => ∃ s'', fix_spec s = Return s'' ∧ s'' ≠ SNone ∧
                              od_get table' f = Some s''
           | None => od_get table' f = od_get table f
           end).
    { intros Hs' Hrun. apply IH in Hrun as [Hkeys Hfields]; [| done |].
      - split; [by rewrite Hkeys, od_keys_set, Hpresent |].
        intros f. specialize (Hfields f). rewrite od_get_set in Hfields.
        destruct (String.eqb_spec f0 f) as [Heq | Hne]; [| done].
        subst f. rewrite (proj2 (od_get_None items f0)) in Hfields by done.
        exists s'. by rewrite Hfields.
      - intros f Hf. unfold od_contains. rewrite od_get_set.
        destruct (String.eqb f0 f); [done |].
        apply (Hin f). by right. }
    destruct s'; try (by apply Hstep). done.
Qed.

Lemma prepare_fields_fixed (items table : odict stored_spec) :
  (∀ f s, (f, s) ∈ items →
     fix_spec s = Return s ∧ s ≠ SNone ∧ od_get table f = Some s) →
  prepare_fields items table = (Return (), table).
Proof.
  induction items as [| [f0 s0] items IH]; intros Hfixed; simpl; [done |].
  destruct (Hfixed f0 s0 ltac:(by left)) as (Hfix & Hnone & Hget).
  rewrite Hfix, (od_set_id table f0 s0 Hget).
  destruct s0; try done; apply IH; intros f s Hin; apply Hfixed; by right.
Qed.

(** X19: a preparation that returns has kept the fields of the table and
    their order and has replaced each converter by what [fix_spec] makes
    of it, leaving the callables as they are; and it has reached a fixed
    point: preparing the table once more returns and changes nothing. *)
Theorem prepare_table_is_stable
    (table table' : odict stored_spec)
    (Hdistinct : NoDup (od_keys table))
    (Hprepared : prepare_table table = (Return (), table')) :
  od_keys table' = od_keys table ∧
  (∀ f s, od_get table f = Some s →
     ∃ s', fix_spec s = Return s' ∧ od_get table' f = Some s') ∧
  (∀ f fn, od_get table f = Some (SCallable fn) →
     od_get table' f = Some (SCallable fn)) ∧
  prepare_table table' = (Return (), table').
Proof.
  unfold prepare_table in *.
  destruct (prepare_fields_Return table Hdistinct table table') as [Hkeys Hfields];
    [by intros f ?%od_contains_elem_of | done |].
  assert (Heach : ∀ f s, od_get table f = Some s →
            ∃ s', fix_spec s = Return s' ∧ s' ≠ SNone ∧ od_get table' f = Some s').
  { intros f s Hget. specialize (Hfields f). by rewrite Hget in Hfields. }
  split; [exact Hkeys | split; [| split]].
  - intros f s Hget. destruct (Heach f s Hget) as (s' & ? & _ & ?). by exists s'.
  - intros f fn Hget. destruct (Heach f _ Hget) as (s' & Hfix & _ & Hget').
    simpl in Hfix. by injection Hfix as <-.
  - apply prepare_fields_fixed. intros f s Hin.
    assert (Hget' : od_get table' f = Some s).
    { apply od_get_NoDup; [by rewrite Hkeys | done]. }
    assert (Hf : f ∈ od_keys table).
    { rewrite <- Hkeys. apply list_elem_of_fmap. by exists (f, s). }
    destruct (od_get_is_Some table f Hf) as [s0 Hget].
    destruct (Heach f s0 Hget) as (s' & Hfix & Hnone & Hget'').
    assert (s' = s) as -> by congruence.
    split; [by eapply fix_spec_idempotent | done].
Qed.

End PrepareProperties.

(** X18 with the name [uuid], which the example routing table lacks. *)
Lemma prepare_refuses_unknown_converter_witness :
  @url_map_converters example_routing !! "uuid" = None ∧
  (@prepare_table example_routing
     [("id", SNamed "int" None); ("key", SNamed "uuid" None)]).1
  = Raise InvalidSpecificationError ∧
  @prepare_table example_routing [("key", SList (SNamed "uuid" None))]
  = (Return (), [("key", SList SNone)]).
Proof.
  assert (Hpre : Forall
    (λ fs : string * stored_spec,
       ∃ s', @fix_spec example_routing fs.2 = Return s' ∧ s' ≠ SNone)
    [("id", SNamed "int" None)]).
  { constructor; [| constructor]. eexists. split; [reflexivity | discriminate]. }
  destruct (@prepare_refuses_unknown_converter example_routing
              [("id", SNamed "int" None)] [] "key" "uuid" None Hpre eq_refl)
    as (Hrefused & Hlist & _); [discriminate |].
  split; [reflexivity | split; [exact Hrefused | exact Hlist]].
Defined.

(** X19 on a table with a known converter name and a callable. *)
Lemma prepare_table_is_stable_witness :
  let table := [("id", SNamed "int" None); ("age", SCallable int_converter)] in
  ∃ table',
    NoDup (od_keys table) ∧
    @prepare_table example_routing table = (Return (), table') ∧
    od_keys table' = ["id"; "age"] ∧
    @prepare_table example_routing table' = (Return (), table').
Proof.
  intros table.
  assert (Hnd : NoDup (od_keys table)) by (apply (bool_decide_unpack _); reflexivity).
  eexists. split; [exact Hnd |]. split; [reflexivity |].
  destruct (@prepare_table_is_stable example_routing table _ Hnd eq_refl)
    as (Hkeys & _ & _ & Hstable).
  split; [exact Hkeys | exact Hstable].
Defined.

(** ** Objects and MultiDicts *)

(** No pair of a member is a key of the allow-list. *)
Lemma extra_fields_members (restrictions : odict bool) (o : object) :
  extra_fields restrictions (c_iter (CDirect o))
  = if forallb (λ member, hashable member.2) o then Return (c_iter (CDirect o))
    else Raise TypeError.
Proof.
  induction o as [| [n x] o IH]; [done |].
  cbn [c_iter fmap list_fmap forallb extra_fields] in *. rewrite IH.
  unfold in_restrictions. cbn [hashable forallb fst snd].
  rewrite andb_true_r.
  destruct (hashable x); [| done]. cbn [mbind outcome_bind andb].
  by destruct (forallb _ o).
Qed.

(** X20: an object never passes an allow-list.  The wrapper iterates over
    an object by the pairs of its members, not by their names, so that
    with an allow-list for the resource no member is found in it and all
    are extras.  For an object that has a member, [validate] then raises
    [TypeError] when the value of a member cannot be hashed, and also when
    the extras are to be stripped, a pair being no attribute name;
    otherwise it raises the unexpected-fields failure with the pairs of
    all the members, those that the allow-list names among them. *)
Theorem object_never_passes_allow_list
    (v : validator) (r : resource) (o : object) (restrictions : odict bool)
    (Hown : restriction_specs v !! name r = Some restrictions)
    (Hmembers : o ≠ []) :
  let strip := default false (strip_extras v !! name r) in
  let pairs := (λ member, VTuple [VStr member.1; member.2]) <$> o in
  c_iter (_ContainerWrapper (Object o)) = pairs ∧
  validate v r (Object o)
  = if forallb (λ member, hashable member.2) o && negb strip
    then Raise (UnexpectedFields pairs)
    else Raise TypeError.
Proof.
  intros strip pairs. split; [done |].
  assert (Hactive : active_restrictions v r = (Some restrictions, strip)).
  { unfold active_restrictions. by rewrite Hown. }
  unfold validate, __handle_restrictions. rewrite Hactive.
  cbn [_ContainerWrapper]. rewrite extra_fields_members.
  destruct (forallb _ o); [| done]. cbn [mbind outcome_bind andb].
  subst pairs. destruct o as [| [n x] o]; [done |].
  cbn [c_iter fmap list_fmap]. rewrite bool_decide_eq_true_2 by done.
  by destruct strip.
Qed.

(** X20 on an object of a class [User] with the attribute [id], under
    [restrict("*id", "name")]: the member [__dict__] holds a dict. *)
Lemma object_never_passes_allow_list_witness :
  let r := example_resource "users" ∅ in
  let v := example_restricted_validator r false in
  let user := [("__class__", VOther "User"); ("__dict__", VMap [("id", VStr "1")]);
               ("id", VStr "1")] in
  restriction_specs v !! name r = Some [("id", true); ("name", false)] ∧
  validate v r (Object user) = Raise TypeError.
Proof.
  intros r v user.
  assert (Hown : restriction_specs v !! name r = Some [("id", true); ("name", false)])
    by reflexivity.
  split; [exact Hown |].
  destruct (object_never_passes_allow_list v r user _ Hown ltac:(discriminate))
    as [_ Hvalidate].
  exact Hvalidate.
Defined.

Lemma od_set_set {V} (k : string) (x y : V) (d : odict V) :
  od_set k y (od_set k x d) = od_set k y d.
Proof.
  induction d as [| [k0 x0] d IH]; simpl.
  - by rewrite String.eqb_refl.
  - destruct (String.eqb k0 k) eqn:Hk0; simpl; rewrite Hk0; [done | by rewrite IH].
Qed.

(** X21: the values of a key of a MultiDict are converted as one list
    field and come back as the values of the key.  When no allow-list
    applies and the one field of the merged spec is a list of a converter
    that converts every value of the key, [validate] returns the MultiDict
    with the converted values for the key, in their order, and the other
    keys as they were. *)
Theorem multidict_list_field_round_trip
    (v : validator) (r : resource) (c : multidict) (field : string)
    (child : stored_spec) (values converted : list value)
    (Hno_allow_list : restriction_specs v !! name r = None)
    (Hno_inheritance : include_collections v = false ∨ collects r = None)
    (Hspec : merged_spec v r = [(field, SList child)])
    (Hdistinct : NoDup (od_keys c))
    (Hvalues : od_get c field = Some values)
    (Hconverted :
       Forall2 (λ x y, __check_item (CSeq [x]) (KIndex 0) child = Return y)
         values converted) :
  validate v r (MultiDict c) = Return (MultiDict (od_set field converted c)) ∧
  od_keys (od_set field converted c) = od_keys c ∧
  ∀ k, od_get (od_set field converted c) k
       = if String.eqb field k then Some converted else od_get c k.
Proof.
  assert (Hpresent : od_contains c field = true)
    by (unfold od_contains; by rewrite Hvalues).
  split; [| split; [by rewrite od_keys_set, Hpresent | apply od_get_set]].
  unfold validate.
  rewrite __handle_restrictions_none by (by apply active_restrictions_none).
  rewrite Hspec. cbn [_ContainerWrapper mbind outcome_bind].
  rewrite od_update_nil_id by done.
  cbn [convert_fields c_contains]. rewrite Hpresent.
  assert (Hcheck : __check_item (CMulti c []) (KField field) (SList child)
                   = Return (VSeq converted)).
  { cbn [__check_item c_getlist]. rewrite Hvalues.
    cbn [from_option id mbind outcome_bind _ContainerWrapper].
    pose proof (mapM_items child [] values) as Hm. simpl in Hm. rewrite Hm.
    by rewrite (mapM_Return _ values converted). }
  rewrite Hcheck. simpl.
  unfold setlist_field. rewrite od_get_set, String.eqb_refl. simpl.
  by rewrite od_set_set.
Qed.

(** X21 on the values of [ids], checked as a list of integers. *)
Lemma multidict_list_field_round_trip_witness :
  let r := example_resource "numbers" ∅ in
  let form := [("ids", [VStr "3"; VStr "4"]); ("name", [VStr "a"])] in
  ∃ v,
    enforce (Validator_init true) r [("ids", RawList [RawCallable int_converter])]
    = Return v ∧
    merged_spec v r = [("ids", SList (SCallable int_converter))] ∧
    validate v r (MultiDict form)
    = Return (MultiDict [("ids", [VInt 3; VInt 4]); ("name", [VStr "a"])]).
Proof.
  intros r form. eexists.
  split; [reflexivity |]. split; [reflexivity |].
  eapply proj1.
  apply (multidict_list_field_round_trip _ r form "ids"
           (SCallable int_converter) [VStr "3"; VStr "4"] [VInt 3; VInt 4]).
  - reflexivity.
  - right. reflexivity.
  - reflexivity.
  - apply (bool_decide_unpack _). reflexivity.
  - reflexivity.
  - repeat constructor.
Defined.
